(** * Partify: the SQLAlchemy models of [partify/models.py]

    A shallow embedding of the five models ([User], [Track],
    [PlayQueueEntry], [PlayHistoryEntry], [Vote]), of the column defaults
    that number the play queue, and of [PlayQueueEntry.as_dict].  The vote
    aggregator ([cast_vote], [tally], [migrate_votes]) is not part of
    [models.py]; it is modelled from the specification, over the [Vote]
    table as the source declares it.  The configuration form of
    [partify/forms/admin_forms.py] is embedded as the declaration it is,
    with the validation rules of its field classes and validators.

    Conventions.
    - A nullable column is an [option]; [None] is SQL NULL / Python [None].
    - A table is the list of its rows in insertion order; the database is
      the record of the five tables, named by [__tablename__].
    - [datetime.datetime.now] is a clock reading handed to the insertion as
      an argument; the salt drawn by [generate_password_hash] likewise.
    - Python integers are unbounded, so column values are [Z]; the declared
      column types are kept as schema metadata ([Schema]).
    - The dictionary built by [as_dict] is a finite map from field names
      to values. *)

From stdpp Require Import base option list sorting gmap strings pretty.

Local Open Scope Z_scope.

(** ** Python values, exceptions *)

(** [datetime.datetime], by its fields. *)
Record datetime := mk_datetime {
  year : Z; month : Z; day : Z;
  hour : Z; minute : Z; second : Z; microsecond : Z
}.

(** The values that end up in attributes and in the dictionary built by
    [as_dict]. *)
Inductive value :=
| VNone
| VInt (z : Z)
| VStr (s : string)
| VDateTime (d : datetime).

Definition of_int (x : option Z) : value :=
  match x with Some z => VInt z | None => VNone end.
Definition of_str (x : option string) : value :=
  match x with Some s => VStr s | None => VNone end.
Definition of_datetime (x : option datetime) : value :=
  match x with Some d => VDateTime d | None => VNone end.

Inductive exn :=
| AttributeError (attr : string)
| TypeError
| ReferentialIntegrityViolation.

Inductive result (A : Type) :=
| Ok (a : A)
| Raise (e : exn).
Arguments Ok {A} a.
Arguments Raise {A} e.

Global Instance result_ret : MRet result := fun A a => Ok a.
Global Instance result_bind : MBind result := fun A B f m =>
  match m with Ok a => f a | Raise e => Raise e end.

(** An object, seen through [getattr]: the attribute's value, or [None]
    when the object has no such attribute. *)
Definition object := string → option value.

(** [getattr(o, attr)]; [o] is [None] for Python's [None], which has none
    of the attributes asked for in this program. *)
Definition getattr (o : option object) (attr : string) : result value :=
  match o with
  | None => Raise (AttributeError attr)
  | Some f => match f attr with
              | Some v => Ok v
              | None => Raise (AttributeError attr)
              end
  end.

(** [getattr(o, attr, dflt)]. *)
Definition getattr_default (o : option object) (attr : string) (dflt : value) : value :=
  match o with
  | None => dflt
  | Some f => match f attr with
              | Some v => v
              | None => dflt
              end
  end.

(** [x or d] on the result of a scalar query: [None] and [0] are falsy. *)
Definition py_or (x : option Z) (d : Z) : Z :=
  match x with
  | None => d
  | Some v => if bool_decide (v = 0) then d else v
  end.

(** ** Schema metadata *)

Module Schema.

Inductive sqltype :=
| Integer
| BigInteger
| String (n : nat)
| Text
| DateTime.

(** How a column's default is declared. *)
Inductive default_kind :=
| NoDefault
| Scalar (z : Z)
| Callable.

Record Column := mk_column {
  col_name : string;
  col_type : sqltype;
  primary_key : bool;
  autoincrement : bool;
  unique : bool;
  foreign_key : option string;
  default : default_kind
}.

Definition column (n : string) (ty : sqltype) : Column :=
  mk_column n ty false false false None NoDefault.
Definition pk (n : string) : Column :=
  mk_column n Integer true true false None NoDefault.
Definition fk (n : string) (target : string) : Column :=
  mk_column n Integer false false false (Some target) NoDefault.
Definition with_unique (c : Column) : Column :=
  mk_column (col_name c) (col_type c) (primary_key c) (autoincrement c) true
            (foreign_key c) (default c).
Definition with_default (d : default_kind) (c : Column) : Column :=
  mk_column (col_name c) (col_type c) (primary_key c) (autoincrement c) (unique c)
            (foreign_key c) d.

Definition find_column (n : string) (cols : list Column) : option Column :=
  List.find (fun c => String.eqb (col_name c) n) cols.

End Schema.

(** ** The models *)

Module User.

Record t := mk {
  id : option Z;
  name : option string;
  username : option string;
  password : option string;
  privs : option Z
}.

Definition columns : list Schema.Column :=
  [ Schema.pk "id";
    Schema.column "name" (Schema.String 64);
    Schema.with_unique (Schema.column "username" (Schema.String 36));
    Schema.column "password" (Schema.String 256);
    Schema.column "privs" Schema.Integer ].

Definition obj (u : t) : object := fun attr =>
  if String.eqb attr "id" then Some (of_int (id u))
  else if String.eqb attr "name" then Some (of_str (name u))
  else if String.eqb attr "username" then Some (of_str (username u))
  else if String.eqb attr "password" then Some (of_str (password u))
  else if String.eqb attr "privs" then Some (of_int (privs u))
  else None.

Section init.
(** Werkzeug's [generate_password_hash], applied to the salt it draws and
    to the password it is given. *)
Variable generate_password_hash : string → option string → result string.

(** [User(name, username, password)]; every argument defaults to [None].
    The object is not flushed yet, so it has no [id]. *)
Definition __init__ (salt : string) (name username password : option string) : result t :=
  h ← generate_password_hash salt password;
  Ok (mk None name username (Some h) (Some 0)).
End init.

Section repr.
(** [repr] of [None], of an integer, of a string and of a [datetime], as
    the [%r] conversion applies it, and the [%d] conversion of an integer. *)
Variable repr : value → string.
Variable format_d : Z → string.

(** ["<User %r with id %d>" % (self.name, self.id)]; [%d] does not accept
    [None]. *)
Definition __repr__ (u : t) : result string :=
  match id u with
  | None => Raise TypeError
  | Some i => Ok ("<User " +:+ repr (of_str (name u)) +:+ " with id " +:+ format_d i +:+ ">")
  end.
End repr.

End User.

Module Track.

Record t := mk {
  id : option Z;
  title : option string;
  artist : option string;
  album : option string;
  length : option Z;
  date : option string;
  spotify_url : option string
}.

Definition columns : list Schema.Column :=
  [ Schema.pk "id";
    Schema.column "title" Schema.Text;
    Schema.column "artist" Schema.Text;
    Schema.column "album" Schema.Text;
    Schema.column "length" Schema.Integer;
    Schema.column "date" Schema.Text;
    Schema.with_unique (Schema.column "spotify_url" Schema.Text) ].

Definition obj (tr : t) : object := fun attr =>
  if String.eqb attr "id" then Some (of_int (id tr))
  else if String.eqb attr "title" then Some (of_str (title tr))
  else if String.eqb attr "artist" then Some (of_str (artist tr))
  else if String.eqb attr "album" then Some (of_str (album tr))
  else if String.eqb attr "length" then Some (of_int (length tr))
  else if String.eqb attr "date" then Some (of_str (date tr))
  else if String.eqb attr "spotify_url" then Some (of_str (spotify_url tr))
  else None.

Section repr.
Variable repr : value → string.

(** ["<%r by %r (from %r) - %r>" % (self.title, self.artist, self.album, self.spotify_url)] *)
Definition __repr__ (tr : t) : string :=
  "<" +:+ repr (of_str (title tr)) +:+ " by " +:+ repr (of_str (artist tr)) +:+
  " (from " +:+ repr (of_str (album tr)) +:+ ") - " +:+ repr (of_str (spotify_url tr)) +:+ ">".
End repr.

End Track.

Module PlayQueueEntry.

Record t := mk {
  id : option Z;
  track_id : option Z;
  user_id : option Z;
  mpd_id : option Z;
  time_added : option datetime;
  user_priority : option Z;
  playback_priority : option Z
}.

Definition columns : list Schema.Column :=
  [ Schema.pk "id";
    Schema.fk "track_id" "track.id";
    Schema.fk "user_id" "user.id";
    Schema.column "mpd_id" Schema.Integer;
    Schema.with_default Schema.Callable (Schema.column "time_added" Schema.DateTime);
    Schema.with_default Schema.Callable (Schema.column "user_priority" Schema.Integer);
    Schema.with_default Schema.Callable
      (Schema.column "playback_priority" Schema.BigInteger) ].

(** The column attributes; the relationships [track] and [user] are
    resolved against the database, see [track_of] and [user_of]. *)
Definition obj (e : t) : object := fun attr =>
  if String.eqb attr "id" then Some (of_int (id e))
  else if String.eqb attr "track_id" then Some (of_int (track_id e))
  else if String.eqb attr "user_id" then Some (of_int (user_id e))
  else if String.eqb attr "mpd_id" then Some (of_int (mpd_id e))
  else if String.eqb attr "time_added" then Some (of_datetime (time_added e))
  else if String.eqb attr "user_priority" then Some (of_int (user_priority e))
  else if String.eqb attr "playback_priority" then Some (of_int (playback_priority e))
  else None.

End PlayQueueEntry.

Module PlayHistoryEntry.

Record t := mk {
  id : option Z;
  track_id : option Z;
  user_id : option Z;
  time_played : option datetime
}.

Definition columns : list Schema.Column :=
  [ Schema.pk "id";
    Schema.fk "track_id" "track.id";
    Schema.fk "user_id" "user.id";
    Schema.with_default Schema.Callable (Schema.column "time_played" Schema.DateTime) ].

End PlayHistoryEntry.

Module Vote.

Record t := mk {
  id : option Z;
  user_id : option Z;
  pqe_id : option Z;
  phe_id : option Z;
  direction : option Z
}.

Definition columns : list Schema.Column :=
  [ Schema.pk "id";
    Schema.fk "user_id" "user.id";
    Schema.fk "pqe_id" "play_queue_entry.id";
    Schema.fk "phe_id" "play_history_entry.id";
    Schema.with_default (Schema.Scalar 0) (Schema.column "direction" Schema.Integer) ].

End Vote.

(** The database: one table per model. *)
Record DB := mk_db {
  user : list User.t;
  track : list Track.t;
  play_queue_entry : list PlayQueueEntry.t;
  play_history_entry : list PlayHistoryEntry.t;
  vote : list Vote.t
}.

Definition empty_db : DB := mk_db [] [] [] [] [].

(** ** Queries *)

(** [db.func.max(col)] over a table: NULLs are skipped, and the result is
    NULL when no row has a value. *)
Definition sql_max {A : Type} (col : A → option Z) (rows : list A) : option Z :=
  foldr (fun r acc =>
           match col r, acc with
           | Some v, Some m => Some (Z.max v m)
           | Some v, None => Some v
           | None, _ => acc
           end) None rows.

(** Primary-key lookup, as done by a relationship's loader. *)
Definition get {A : Type} (pkey : A → option Z) (rows : list A) (i : option Z) : option A :=
  match i with
  | None => None
  | Some _ => List.find (fun r => bool_decide (pkey r = i)) rows
  end.

(** An autoincrement key: one above the largest key of the table. *)
Definition next_id {A : Type} (pkey : A → option Z) (rows : list A) : Z :=
  match sql_max pkey rows with
  | None => 1
  | Some m => m + 1
  end.

(** ** Column defaults of [PlayQueueEntry] and insertion *)

(** [default=lambda: (db.session.query(db.func.max(PlayQueueEntry.user_priority)).first()[0] or 0) + 1] *)
Definition default_user_priority (db : DB) : Z :=
  py_or (sql_max PlayQueueEntry.user_priority (play_queue_entry db)) 0 + 1.

(** [default=lambda: (db.session.query(db.func.max(PlayQueueEntry.playback_priority)).first()[0] or 0) + 1] *)
Definition default_playback_priority (db : DB) : Z :=
  py_or (sql_max PlayQueueEntry.playback_priority (play_queue_entry db)) 0 + 1.

Definition set_play_queue_entry (rows : list PlayQueueEntry.t) (db : DB) : DB :=
  mk_db (user db) (track db) rows (play_history_entry db) (vote db).

(** The row written when a [PlayQueueEntry] created with the given track,
    user and Mopidy id (and nothing else) is added to the session and
    flushed at time [now]: every remaining column takes its default. *)
Definition new_entry (db : DB) (track_id user_id mpd_id : option Z) (now : datetime)
  : PlayQueueEntry.t :=
  PlayQueueEntry.mk
    (Some (next_id PlayQueueEntry.id (play_queue_entry db)))
    track_id user_id mpd_id
    (Some now)
    (Some (default_user_priority db))
    (Some (default_playback_priority db)).

Definition enqueue (db : DB) (track_id user_id mpd_id : option Z) (now : datetime) : DB :=
  set_play_queue_entry
    (play_queue_entry db ++ [new_entry db track_id user_id mpd_id now]) db.

(** One enqueue request: track, user, Mopidy id, clock reading. *)
Record request := mk_request {
  req_track : option Z;
  req_user : option Z;
  req_mpd : option Z;
  req_now : datetime
}.

(** Requests served one after the other, each flushed before the next. *)
Definition enqueue_all (reqs : list request) (db : DB) : DB :=
  foldl (fun db r => enqueue db (req_track r) (req_user r) (req_mpd r) (req_now r))
        db reqs.

(** The largest value of a column, an empty column counting as [0]. *)
Definition max_or_zero {A : Type} (col : A → option Z) (rows : list A) : Z :=
  match sql_max col rows with
  | None => 0
  | Some m => m
  end.

(** ** [PlayQueueEntry.as_dict] *)

(** [self.track] and [self.user]: the rows the foreign keys point to, or
    [None] when the key is NULL or no such row exists. *)
Definition track_of (db : DB) (self : PlayQueueEntry.t) : option Track.t :=
  get Track.id (track db) (PlayQueueEntry.track_id self).

Definition user_of (db : DB) (self : PlayQueueEntry.t) : option User.t :=
  get User.id (user db) (PlayQueueEntry.user_id self).

(** [for attr in attrs: d[attr] = getattr(o, attr)] *)
Fixpoint copy_attrs (o : option object) (attrs : list string) (d : gmap string value)
  : result (gmap string value) :=
  match attrs with
  | [] => Ok d
  | attr :: attrs => v ← getattr o attr; copy_attrs o attrs (<[attr := v]> d)
  end.

Section as_dict.
(** [datetime.ctime], the formatting of the standard library. *)
Variable ctime : datetime → string.

(** [t.ctime()] for a possibly-null [t]. *)
Definition call_ctime (t : option datetime) : result string :=
  match t with
  | None => Raise (AttributeError "ctime")
  | Some t => Ok (ctime t)
  end.

Definition as_dict (db : DB) (self : PlayQueueEntry.t) : result (gmap string value) :=
  d ← copy_attrs (Track.obj <$> track_of db self)
                 ["title"; "artist"; "album"; "spotify_url"; "date"; "length"] ∅;
  d ← copy_attrs (Some (PlayQueueEntry.obj self))
                 ["id"; "mpd_id"; "playback_priority"; "user_priority"] d;
  ts ← call_ctime (PlayQueueEntry.time_added self);
  let d := <["time_added" := VStr ts]> d in
  let d := <["user" := getattr_default (User.obj <$> user_of db self)
                                       "name" (VStr "Anonymous")]> d in
  let d := <["username" := getattr_default (User.obj <$> user_of db self)
                                           "username" (VStr "anonymous")]> d in
  let d := <["user_id" := of_int (PlayQueueEntry.user_id self)]> d in
  Ok d.

(** The dictionary built for an entry with a track and an enqueue time. *)
Definition as_dict_value (db : DB) (self : PlayQueueEntry.t)
           (tr : Track.t) (t : datetime) : gmap string value :=
  <["user_id" := of_int (PlayQueueEntry.user_id self)]>
  (<["username" := getattr_default (User.obj <$> user_of db self)
                                   "username" (VStr "anonymous")]>
  (<["user" := getattr_default (User.obj <$> user_of db self)
                               "name" (VStr "Anonymous")]>
  (<["time_added" := VStr (ctime t)]>
  (<["user_priority" := of_int (PlayQueueEntry.user_priority self)]>
  (<["playback_priority" := of_int (PlayQueueEntry.playback_priority self)]>
  (<["mpd_id" := of_int (PlayQueueEntry.mpd_id self)]>
  (<["id" := of_int (PlayQueueEntry.id self)]>
  (<["length" := of_int (Track.length tr)]>
  (<["date" := of_str (Track.date tr)]>
  (<["spotify_url" := of_str (Track.spotify_url tr)]>
  (<["album" := of_str (Track.album tr)]>
  (<["artist" := of_str (Track.artist tr)]>
  (<["title" := of_str (Track.title tr)]> ∅))))))))))))).
End as_dict.

(** ** [__repr__] of the entries *)

(** [self.track] and [self.user] of a history entry. *)
Definition played_track (db : DB) (self : PlayHistoryEntry.t) : option Track.t :=
  get Track.id (track db) (PlayHistoryEntry.track_id self).

Definition played_by (db : DB) (self : PlayHistoryEntry.t) : option User.t :=
  get User.id (user db) (PlayHistoryEntry.user_id self).

Section repr.
Variable repr : value → string.
Variable format_d : Z → string.

(** [%r] of a [Track] or [None], and of a [User] or [None]. *)
Definition repr_track (o : option Track.t) : string :=
  match o with
  | None => repr VNone
  | Some tr => Track.__repr__ repr tr
  end.

Definition repr_user (o : option User.t) : result string :=
  match o with
  | None => Ok (repr VNone)
  | Some u => User.__repr__ repr format_d u
  end.

(** [PlayQueueEntry.__repr__]: the format
    [<Track %r (MPD %r) queued by %r at %r with priority %r (queue position %r)>]
    applied to [self.track], [self.mpd_id], [self.user], [self.time_added],
    [self.user_priority] and [self.playback_priority]. *)
Definition PlayQueueEntry__repr__ (db : DB) (self : PlayQueueEntry.t) : result string :=
  u ← repr_user (user_of db self);
  Ok ("<Track " +:+ repr_track (track_of db self) +:+
      " (MPD " +:+ repr (of_int (PlayQueueEntry.mpd_id self)) +:+
      ") queued by " +:+ u +:+
      " at " +:+ repr (of_datetime (PlayQueueEntry.time_added self)) +:+
      " with priority " +:+ repr (of_int (PlayQueueEntry.user_priority self)) +:+
      " (queue position " +:+ repr (of_int (PlayQueueEntry.playback_priority self)) +:+ ")>").

(** [PlayHistoryEntry.__repr__]: the format [<%r played by %r at %r>]
    applied to [self.track], [self.user] and [self.time_played]. *)
Definition PlayHistoryEntry__repr__ (db : DB) (self : PlayHistoryEntry.t) : result string :=
  u ← repr_user (played_by db self);
  Ok ("<" +:+ repr_track (played_track db self) +:+
      " played by " +:+ u +:+
      " at " +:+ repr (of_datetime (PlayHistoryEntry.time_played self)) +:+ ">").
End repr.

(** ** Votes *)

Definition set_vote (rows : list Vote.t) (db : DB) : DB :=
  mk_db (user db) (track db) (play_queue_entry db) (play_history_entry db) rows.

(** The row written when [Vote(user_id=.., pqe_id=.., phe_id=.., direction=..)]
    is added to the session and flushed; an argument left out is [None],
    and a [direction] left out takes the column default [0]. *)
Definition new_vote (db : DB) (user_id pqe_id phe_id direction : option Z) : Vote.t :=
  Vote.mk (Some (next_id Vote.id (vote db))) user_id pqe_id phe_id
          (Some (match direction with Some d => d | None => 0 end)).

Definition insert_vote (db : DB) (user_id pqe_id phe_id direction : option Z) : DB :=
  set_vote (vote db ++ [new_vote db user_id pqe_id phe_id direction]) db.

(** Exactly one of the two references of a vote is set. *)
Definition exactly_one_target (v : Vote.t) : Prop :=
  (is_Some (Vote.pqe_id v) ∧ Vote.phe_id v = None) ∨
  (Vote.pqe_id v = None ∧ is_Some (Vote.phe_id v)).

(** Which of the two references of a vote are set. *)
Inductive target_shape := NoTarget | QueueOnly | HistoryOnly | BothTargets.

Definition shape (v : Vote.t) : target_shape :=
  match Vote.pqe_id v, Vote.phe_id v with
  | None, None => NoTarget
  | Some _, None => QueueOnly
  | None, Some _ => HistoryOnly
  | Some _, Some _ => BothTargets
  end.

(** The documented directions: [-1] is down, [1] is up, [0] the default. *)
Definition documented_direction (d : option Z) : Prop :=
  d = Some (-1) ∨ d = Some 0 ∨ d = Some 1.

(** *** The vote aggregator *)

(** Modelled from the spec: the target of a vote as the operations of
    section 4.5 take it, a queue entry or a history entry, by id.  The
    operations themselves are not part of [models.py]. *)
Inductive Target :=
| QueueTarget (id : Z)
| HistoryTarget (id : Z).

Global Instance Target_eq_dec : EqDecision Target.
Proof. solve_decision. Defined.

Definition target_exists (db : DB) (t : Target) : bool :=
  match t with
  | QueueTarget q =>
      bool_decide (is_Some (get PlayQueueEntry.id (play_queue_entry db) (Some q)))
  | HistoryTarget h =>
      bool_decide (is_Some (get PlayHistoryEntry.id (play_history_entry db) (Some h)))
  end.

(** The references a vote on [t] carries. *)
Definition target_pqe (t : Target) : option Z :=
  match t with QueueTarget q => Some q | HistoryTarget _ => None end.
Definition target_phe (t : Target) : option Z :=
  match t with QueueTarget _ => None | HistoryTarget h => Some h end.

(** The vote [v] is on target [t]. *)
Definition votes_on (t : Target) (v : Vote.t) : bool :=
  match t with
  | QueueTarget q => bool_decide (Vote.pqe_id v = Some q)
  | HistoryTarget h => bool_decide (Vote.phe_id v = Some h)
  end.

(** The vote [v] is the vote of user [u] on target [t]. *)
Definition vote_of (u : Z) (t : Target) (v : Vote.t) : bool :=
  bool_decide (Vote.user_id v = Some u) && votes_on t v.

Definition set_direction (d : Z) (v : Vote.t) : Vote.t :=
  Vote.mk (Vote.id v) (Vote.user_id v) (Vote.pqe_id v) (Vote.phe_id v) (Some d).

(** Apply [f] to the first element that satisfies [p]. *)
Fixpoint update_first {A : Type} (p : A → bool) (f : A → A) (l : list A) : list A :=
  match l with
  | [] => []
  | x :: l => if p x then f x :: l else x :: update_first p f l
  end.

(** Modelled from the spec: [cast_vote(user, target, direction)], section
    4.5: "if a Vote row for (user, target) exists, update its direction in
    place; else insert one"; a vote on a nonexistent target is a
    [ReferentialIntegrityViolation], section 7. *)
Definition cast_vote (db : DB) (u : Z) (t : Target) (d : Z) : result DB :=
  if negb (target_exists db t) then Raise ReferentialIntegrityViolation
  else if existsb (vote_of u t) (vote db)
  then Ok (set_vote (update_first (vote_of u t) (set_direction d) (vote db)) db)
  else Ok (insert_vote db (Some u) (target_pqe t) (target_phe t) (Some d)).

Definition sumZ (l : list Z) : Z := foldr Z.add 0 l.

Definition direction_value (v : Vote.t) : Z :=
  match Vote.direction v with Some d => d | None => 0 end.

(** Modelled from the spec: [tally(target)], section 4.5: "sum of
    directions across all Votes for that target". *)
Definition tally (db : DB) (t : Target) : Z :=
  sumZ (direction_value <$> filter (fun v => votes_on t v = true) (vote db)).

Definition repoint (q h : Z) (v : Vote.t) : Vote.t :=
  if bool_decide (Vote.pqe_id v = Some q)
  then Vote.mk (Vote.id v) (Vote.user_id v) None (Some h) (Vote.direction v)
  else v.

(** Modelled from the spec: [migrate_votes(old_queue_entry,
    new_history_entry)], section 4.5: "re-point every Vote whose target was
    the queue entry to the new history entry, preserving direction and
    user". *)
Definition migrate_votes (db : DB) (q h : Z) : DB :=
  set_vote (repoint q h <$> vote db) db.

(** The votes of [db] on [t], as (user, direction) pairs. *)
Definition ballots (db : DB) (t : Target) : list (option Z * option Z) :=
  (fun v => (Vote.user_id v, Vote.direction v)) <$>
    filter (fun v => votes_on t v = true) (vote db).

(** At most one vote per user and target. *)
Definition vote_unique (votes : list Vote.t) : Prop :=
  ∀ (u : Z) (t : Target),
    (List.length (filter (fun v => vote_of u t v = true) votes) ≤ 1)%nat.

(** The vote [v] is a vote on [t] by somebody other than [u]. *)
Definition others_on (u : Z) (t : Target) (v : Vote.t) : bool :=
  votes_on t v && negb (vote_of u t v).

(** Modelled from the spec: one step of the vote aggregator of section
    4.5.  A vote is cast, or the votes of a queue entry that is being
    dequeued are migrated to its history entry, which is new: no vote
    refers to it yet. *)
Inductive vote_step : DB → DB → Prop :=
| step_cast_vote (db : DB) (u : Z) (t : Target) (d : Z) (db' : DB) :
    cast_vote db u t d = Ok db' → vote_step db db'
| step_migrate_votes (db : DB) (q h : Z) :
    Forall (fun v => Vote.phe_id v ≠ Some h) (vote db) →
    vote_step db (migrate_votes db q h).

(** The stores the aggregator reaches from one without votes. *)
Definition reachable (db : DB) : Prop :=
  ∃ db0, vote db0 = [] ∧ rtc vote_step db0 db.

(** ** Ordering of the queue *)

(** Every row has a value in the column, and the values increase strictly
    from one row to the next. *)
Definition priority_ordered {A : Type} (col : A → option Z) (rows : list A) : Prop :=
  ∃ vs, col <$> rows = Some <$> vs ∧ StronglySorted Z.lt vs.

(** What an enqueue request supplies to its row. *)
Definition request_columns (r : request)
  : option Z * option Z * option Z * option datetime :=
  (req_track r, req_user r, req_mpd r, Some (req_now r)).

Definition entry_columns (e : PlayQueueEntry.t)
  : option Z * option Z * option Z * option datetime :=
  (PlayQueueEntry.track_id e, PlayQueueEntry.user_id e, PlayQueueEntry.mpd_id e,
   PlayQueueEntry.time_added e).

(** * The configuration form of [partify/forms/admin_forms.py]

    The form is a declaration: seven fields, each with a class and a list
    of validators.  It is kept as data, and validated by the rules WTForms
    applies to these classes and validators.  A field's input is the list
    of values submitted under its name. *)

Module wtforms.

Inductive validator :=
| Required
| Optional
| NumberRange (min max : option Z).

Inductive field_class :=
| TextField
| IntegerField
| SelectField (choices : list (string * string)).

Record field := Field {
  label : string;
  class : field_class;
  validators : list validator
}.

(** [field.data] once the submitted values are processed. *)
Inductive data :=
| NoData
| IntData (z : Z)
| StrData (s : string).

Inductive error :=
| NotAValidInteger
| NotAValidChoice
| FieldRequired
| NumberOutOfRange.

Record bound := Bound {
  raw_data : list string;
  field_data : data;
  process_errors : list error
}.

Section process.
(** [not s.strip()] on a submitted value: whether it is empty once the
    whitespace of its string type is stripped.  Which characters count as
    whitespace is the matter of that type, so the test is taken as given. *)
Variable blank : string → bool.

(** Python's [int] on a submitted value; [None] when it raises
    [ValueError]. *)
Variable int : string → option Z.

(** [Field.process_formdata] of each class.  A text field without a value
    has the empty string; an integer field keeps no data when there is no
    value or the value does not parse; a select field coerces its value to
    a string, the missing value [None] included. *)
Definition process (c : field_class) (valuelist : list string) : bound :=
  match c with
  | TextField => Bound valuelist (StrData (hd "" valuelist)) []
  | IntegerField =>
      match valuelist with
      | [] => Bound valuelist NoData []
      | v :: _ =>
          match int v with
          | Some n => Bound valuelist (IntData n) []
          | None => Bound valuelist NoData [NotAValidInteger]
          end
      end
  | SelectField _ =>
      match valuelist with
      | [] => Bound valuelist (StrData "None") []
      | v :: _ => Bound valuelist (StrData v) []
      end
  end.

(** [not field.data] *)
Definition falsy (d : data) : bool :=
  match d with
  | NoData => true
  | IntData z => Z.eqb z 0
  | StrData s => String.eqb s ""
  end.

Definition blank_data (d : data) : bool :=
  match d with
  | StrData s => blank s
  | _ => false
  end.

(** [NumberRange.__call__]: no data, or data below [min] or above [max];
    Python 2 orders every string above every number. *)
Definition out_of_range (min max : option Z) (d : data) : bool :=
  match d with
  | NoData => true
  | IntData z =>
      match min with Some lo => Z.ltb z lo | None => false end ||
      match max with Some hi => Z.ltb hi z | None => false end
  | StrData _ => match max with Some _ => true | None => false end
  end.

(** One validator: the errors of the field after it, and whether it stops
    the chain ([StopValidation]).  [Required] and [Optional] discard the
    errors found so far. *)
Definition run_validator (v : validator) (b : bound) (errors : list error)
  : list error * bool :=
  match v with
  | Required =>
      if falsy (field_data b) || blank_data (field_data b)
      then ([FieldRequired], true)
      else (errors, false)
  | Optional =>
      match raw_data b with
      | [] => ([], true)
      | v :: _ => if blank v then ([], true) else (errors, false)
      end
  | NumberRange min max =>
      if out_of_range min max (field_data b)
      then (errors ++ [NumberOutOfRange], false)
      else (errors, false)
  end.

Fixpoint run_validators (vs : list validator) (b : bound) (errors : list error)
  : list error :=
  match vs with
  | [] => errors
  | v :: vs' =>
      let '(errors', stop) := run_validator v b errors in
      if stop then errors' else run_validators vs' b errors'
  end.

(** [SelectField.pre_validate]: the data must be one of the choices. *)
Definition pre_validate (c : field_class) (b : bound) : list error :=
  match c with
  | SelectField choices =>
      match field_data b with
      | StrData s =>
          if existsb (fun choice => String.eqb s (fst choice)) choices
          then [] else [NotAValidChoice]
      | _ => [NotAValidChoice]
      end
  | _ => []
  end.

(** [Field.validate]: the errors of a field on the values submitted. *)
Definition field_errors (f : field) (valuelist : list string) : list error :=
  let b := process (class f) valuelist in
  run_validators (validators f) b (process_errors b ++ pre_validate (class f) b).

Definition validate_field (f : field) (valuelist : list string) : bool :=
  match field_errors f valuelist with
  | [] => true
  | _ => false
  end.

(** [Form.validate]: every field is validated; the form is valid when no
    field has an error. *)
Definition validate (form : list (string * field)) (formdata : string → list string)
  : bool :=
  forallb (fun nf => validate_field (snd nf) (formdata (fst nf))) form.
End process.

End wtforms.

(** [class ConfigurationForm(Form)] *)
Definition ConfigurationForm : list (string * wtforms.field) :=
  [ ("mpd_server_hostname",
     wtforms.Field "MPD Server Hostname" wtforms.TextField [wtforms.Required]);
    ("mpd_server_port",
     wtforms.Field "MPD Server Port" wtforms.IntegerField
       [wtforms.Required; wtforms.NumberRange (Some 0) (Some 65535)]);
    ("server_host",
     wtforms.Field "Hostname to listen on" wtforms.TextField [wtforms.Required]);
    ("server_port",
     wtforms.Field "Port to listen on" wtforms.IntegerField
       [wtforms.Required; wtforms.NumberRange (Some 0) (Some 65535)]);
    ("server",
     wtforms.Field "Underlying Server Software"
       (wtforms.SelectField [("tornado", "Tornado"); ("builtin", "Builtin Debugging Server")])
       [wtforms.Required]);
    ("lastfm_api_key",
     wtforms.Field "Last.fm API Key" wtforms.TextField [wtforms.Optional]);
    ("lastfm_api_secret",
     wtforms.Field "Last.fm API Secret" wtforms.TextField [wtforms.Optional]) ].

(** The field of a form by name. *)
Definition form_field (form : list (string * wtforms.field)) (name : string)
  : option wtforms.field :=
  snd <$> List.find (fun nf => String.eqb (fst nf) name) form.

(** A port as the form accepts it. *)
Definition accepted_port (int : string → option Z) (valuelist : list string) : Prop :=
  ∃ v rest n, valuelist = v :: rest ∧ int v = Some n ∧ 1 ≤ n ≤ 65535.

(** A host name as the form accepts it: not empty, and not blank. *)
Definition accepted_host (blank : string → bool) (valuelist : list string) : Prop :=
  ∃ v rest, valuelist = v :: rest ∧ v ≠ "" ∧ blank v = false.

(** A server as the form accepts it. *)
Definition accepted_server (valuelist : list string) : Prop :=
  ∃ v rest, valuelist = v :: rest ∧ (v = "tornado" ∨ v = "builtin").

(** ** Sample data *)

Definition sample_now : datetime := mk_datetime 2011 11 5 20 15 0 0.

Definition sample_requests : list request :=
  [ mk_request (Some 7) (Some 1) (Some 40) sample_now;
    mk_request (Some 9) None None sample_now;
    mk_request (Some 7) (Some 2) (Some 42) sample_now ].

Definition sample_ctime (d : datetime) : string := "Sat Nov  5 20:15:00 2011".

Definition sample_track : Track.t :=
  Track.mk (Some 7) (Some "Blue in Green") (Some "Miles Davis") (Some "Kind of Blue")
           (Some 337) (Some "1959") (Some "spotify:track:0aWMVrwxPNYkKmFthzmpRi").

(** A user whose display name and username are both NULL. *)
Definition sample_blank_user : User.t := User.mk (Some 2) None None None (Some 0).

Definition sample_db : DB :=
  mk_db [ User.mk (Some 1) (Some "Alice") (Some "alice") (Some "sha1$x$0") (Some 0);
          sample_blank_user ]
        [ sample_track ] [] [] [].

(** Queue entries of [sample_db]: queued by nobody, and by the blank user. *)
Definition sample_anonymous_entry : PlayQueueEntry.t :=
  PlayQueueEntry.mk (Some 1) (Some 7) None (Some 40) (Some sample_now) (Some 1) (Some 1).

Definition sample_blank_entry : PlayQueueEntry.t :=
  PlayQueueEntry.mk (Some 2) (Some 7) (Some 2) None (Some sample_now) (Some 2) (Some 2).

(** A stand-in for the hashing primitive: it rejects [None] and keeps the
    Werkzeug layout [method$salt$digest], with a two-valued digest. *)
Definition sample_hash (salt : string) (password : option string) : result string :=
  match password with
  | None => Raise TypeError
  | Some p =>
      Ok ("sha1$" +:+ salt +:+ "$" +:+ (if Nat.even (String.length p) then "0e" else "1d"))
  end.

(** A queue of two entries, one history entry, and the votes of users 1
    and 2 on queue entry 1 and of user 3 on queue entry 2. *)
Definition sample_vote_db : DB :=
  mk_db []
        [ sample_track ]
        [ PlayQueueEntry.mk (Some 1) (Some 7) (Some 1) None (Some sample_now) (Some 1) (Some 1);
          PlayQueueEntry.mk (Some 2) (Some 7) (Some 2) None (Some sample_now) (Some 2) (Some 2) ]
        [ PlayHistoryEntry.mk (Some 1) (Some 7) (Some 1) (Some sample_now) ]
        [ Vote.mk (Some 1) (Some 1) (Some 1) None (Some 1);
          Vote.mk (Some 2) (Some 2) (Some 1) None (Some (-1));
          Vote.mk (Some 3) (Some 3) (Some 2) None (Some 1) ].

(** [sample_vote_db] before anybody has voted. *)
Definition sample_queue_db : DB := set_vote [] sample_vote_db.

(** An entry of [sample_db] whose track row is gone, and one that has not
    been given an enqueue time. *)
Definition sample_trackless_entry : PlayQueueEntry.t :=
  PlayQueueEntry.mk (Some 3) (Some 99) (Some 1) None (Some sample_now) (Some 3) (Some 3).

Definition sample_timeless_entry : PlayQueueEntry.t :=
  PlayQueueEntry.mk (Some 4) (Some 7) (Some 1) None None (Some 4) (Some 4).

(** Stand-ins for [repr] and for the [%d] conversion. *)
Definition sample_repr (v : value) : string :=
  match v with
  | VNone => "None"
  | VInt z => pretty z
  | VStr s => "'" +:+ s +:+ "'"
  | VDateTime _ => "datetime.datetime(2011, 11, 5, 20, 15)"
  end.

Definition sample_format_d (z : Z) : string := pretty z.

(** A stand-in for [int], on the values used below. *)
Definition sample_int (s : string) : option Z :=
  if String.eqb s "6600" then Some 6600
  else if String.eqb s "0" then Some 0
  else if String.eqb s "70000" then Some 70000
  else None.

Definition sample_formdata (name : string) : list string :=
  if String.eqb name "mpd_server_hostname" then ["localhost"]
  else if String.eqb name "mpd_server_port" then ["6600"]
  else if String.eqb name "server_host" then ["0.0.0.0"]
  else if String.eqb name "server_port" then ["6600"]
  else if String.eqb name "server" then ["tornado"]
  else [].

(** An entry of [sample_db] queued by a user whose row is gone. *)
Definition sample_orphan_entry : PlayQueueEntry.t :=
  PlayQueueEntry.mk (Some 5) (Some 7) (Some 99) None (Some sample_now) (Some 5) (Some 5).

(** A stand-in for [not s.strip()], that of byte strings: the whitespace
    stripped is tab, line feed, vertical tab, form feed, carriage return
    and space. *)
Definition sample_is_space (c : Ascii.ascii) : bool :=
  let n := Ascii.nat_of_ascii c in
  (Nat.leb 9 n && Nat.leb n 13) || Nat.eqb n 32.

Fixpoint sample_lstrip (l : list Ascii.ascii) : list Ascii.ascii :=
  match l with
  | [] => []
  | c :: l' => if sample_is_space c then sample_lstrip l' else l
  end.

Definition sample_strip (s : string) : string :=
  String.string_of_list_ascii
    (rev (sample_lstrip (rev (sample_lstrip (String.list_ascii_of_string s))))).

Definition sample_blank (s : string) : bool := String.eqb (sample_strip s) "".

(** ** Field sets of the projection *)

(** The thirteen fields of the flattened record as the specification lists
    them. *)
Definition listed_fields : gset string :=
  {[ "title"; "artist"; "album"; "spotify_url"; "date"; "length";
     "id"; "mpd_id"; "playback_priority"; "user_priority";
     "time_added"; "user"; "username" ]}.

(** The keys [as_dict] assigns. *)
Definition as_dict_fields : gset string :=
  {[ "title"; "artist"; "album"; "spotify_url"; "date"; "length";
     "id"; "mpd_id"; "playback_priority"; "user_priority";
     "time_added"; "user"; "username"; "user_id" ]}.

(** * Properties *)

(** ** Facts about the queries *)

Section sql_max.
Context {A : Type} (col : A → option Z).

Lemma py_or_zero (x : option Z) :
  py_or x 0 = match x with None => 0 | Some m => m end.
Proof.
  destruct x as [v|]; simpl; [|done].
  case_bool_decide; congruence.
Qed.

Lemma sql_max_app (l1 l2 : list A) :
  sql_max col (l1 ++ l2) =
    match sql_max col l1, sql_max col l2 with
    | Some a, Some b => Some (Z.max a b)
    | Some a, None => Some a
    | None, r => r
    end.
Proof.
  induction l1 as [|x l1 IH]; simpl.
  - by destruct (sql_max col l2).
  - fold (sql_max col (l1 ++ l2)). fold (sql_max col l1). rewrite IH.
    destruct (col x), (sql_max col l1), (sql_max col l2); simpl; try done.
    f_equal. lia.
Qed.

Lemma sql_max_None (l : list A) :
  sql_max col l = None ↔ Forall (fun r => col r = None) l.
Proof.
  induction l as [|x l IH]; simpl.
  - split; [constructor|done].
  - fold (sql_max col l). split.
    + destruct (col x) eqn:Hx, (sql_max col l) eqn:Hm; try done.
      intros _. constructor; [done|]. by apply IH.
    + intros H. inversion H as [|? ? Hx Hl]; subst.
      rewrite Hx. by apply IH.
Qed.

(** [sql_max] is an upper bound of the column. *)
Lemma sql_max_ge (l : list A) (r : A) (v : Z) :
  r ∈ l → col r = Some v → ∃ m, sql_max col l = Some m ∧ v ≤ m.
Proof.
  induction l as [|x l IH]; simpl; [by intros ?%elem_of_nil|].
  fold (sql_max col l).
  intros [->|Hin]%elem_of_cons Hv.
  - rewrite Hv. destruct (sql_max col l); eexists; split; try done; lia.
  - destruct (IH Hin Hv) as (m & -> & Hle).
    destruct (col x); eexists; split; try done; lia.
Qed.

(** ... and it is attained. *)
Lemma sql_max_attained (l : list A) (m : Z) :
  sql_max col l = Some m → ∃ r, r ∈ l ∧ col r = Some m.
Proof.
  revert m. induction l as [|x l IH]; simpl; [done|].
  fold (sql_max col l). intros m.
  destruct (col x) as [v|] eqn:Hx, (sql_max col l) as [m'|] eqn:Hm.
  - intros [= <-]. destruct (Z.max_spec v m') as [[_ ->]|[_ ->]].
    + destruct (IH m' eq_refl) as (r & ? & ?). exists r. split; [by right|done].
    + exists x. split; [by left|done].
  - intros [= <-]. exists x. split; [by left|done].
  - intros [= <-]. destruct (IH m' eq_refl) as (r & ? & ?).
    exists r. split; [by right|done].
  - done.
Qed.

(** A column that reads [1, 2, ..., k] has maximum [k]. *)
Lemma max_or_zero_seqZ (l : list A) :
  col <$> l = Some <$> seqZ 1 (Z.of_nat (List.length l)) →
  max_or_zero col l = Z.of_nat (List.length l).
Proof.
  induction l as [|x l IH] using rev_ind; [done|].
  rewrite length_app, fmap_app. simpl.
  replace (Z.of_nat (List.length l + 1)) with (Z.of_nat (List.length l) + 1) by lia.
  rewrite seqZ_app by lia. rewrite fmap_app. simpl.
  intros Heq. apply app_inj_1 in Heq as [Hl Hx];
    [|by rewrite !length_fmap, length_seqZ; lia].
  specialize (IH Hl). injection Hx as Hx.
  unfold max_or_zero in *. rewrite sql_max_app. simpl. rewrite Hx.
  destruct (sql_max col l) as [m|] eqn:Hm.
  - subst m. f_equal. lia.
  - lia.
Qed.
End sql_max.

(** ** Priority assignment on enqueue *)

Lemma default_user_priority_max (db : DB) :
  default_user_priority db =
    max_or_zero PlayQueueEntry.user_priority (play_queue_entry db) + 1.
Proof. unfold default_user_priority, max_or_zero. by rewrite py_or_zero. Qed.

Lemma default_playback_priority_max (db : DB) :
  default_playback_priority db =
    max_or_zero PlayQueueEntry.playback_priority (play_queue_entry db) + 1.
Proof. unfold default_playback_priority, max_or_zero. by rewrite py_or_zero. Qed.

Lemma enqueue_all_snoc (reqs : list request) (r : request) (db : DB) :
  enqueue_all (reqs ++ [r]) db =
    enqueue (enqueue_all reqs db) (req_track r) (req_user r) (req_mpd r) (req_now r).
Proof. unfold enqueue_all. by rewrite foldl_app. Qed.

Lemma seqZ_snoc (n : nat) :
  seqZ 1 (Z.of_nat (S n)) = seqZ 1 (Z.of_nat n) ++ [Z.of_nat n + 1].
Proof.
  replace (Z.of_nat (S n)) with (Z.of_nat n + 1) by lia.
  rewrite seqZ_app by lia. f_equal.
  rewrite seqZ_cons, seqZ_nil by lia. f_equal. lia.
Qed.

(** Both columns of a queue filled from empty read [1, 2, ..., N]. *)
Lemma enqueue_all_columns (reqs : list request) (db : DB) :
  play_queue_entry db = [] →
  let q := play_queue_entry (enqueue_all reqs db) in
  PlayQueueEntry.user_priority <$> q = Some <$> seqZ 1 (Z.of_nat (List.length reqs)) ∧
  PlayQueueEntry.playback_priority <$> q = Some <$> seqZ 1 (Z.of_nat (List.length reqs)).
Proof.
  intros Hempty. induction reqs as [|r reqs IH] using rev_ind; simpl.
  - rewrite Hempty. done.
  - destruct IH as [IHu IHp].
    rewrite enqueue_all_snoc. unfold enqueue. simpl.
    set (db' := enqueue_all reqs db) in *.
    assert (List.length (play_queue_entry db') = List.length reqs) as Hlen.
    { apply (f_equal List.length) in IHu.
      rewrite !length_fmap, length_seqZ in IHu. lia. }
    rewrite length_app, Nat.add_1_r, seqZ_snoc, !fmap_app. simpl.
    rewrite default_user_priority_max, default_playback_priority_max.
    rewrite !max_or_zero_seqZ by (rewrite Hlen; done).
    rewrite Hlen, IHu, IHp. done.
Qed.

(** C1. Each enqueue writes [user_priority = max(user_priority) + 1] and
    [playback_priority = max(playback_priority) + 1], the maximum taken
    over the whole queue table and an empty table counting as 0; so [N]
    enqueues served one after the other on an empty queue leave both
    columns reading 1, 2, ..., N in enqueue order. *)
Theorem enqueue_priorities (db : DB) (reqs : list request) :
  play_queue_entry db = [] →
  (∀ (d : DB) (track_id user_id mpd_id : option Z) (now : datetime),
      ∃ e, play_queue_entry (enqueue d track_id user_id mpd_id now) =
             play_queue_entry d ++ [e] ∧
           PlayQueueEntry.user_priority e =
             Some (max_or_zero PlayQueueEntry.user_priority (play_queue_entry d) + 1) ∧
           PlayQueueEntry.playback_priority e =
             Some (max_or_zero PlayQueueEntry.playback_priority (play_queue_entry d) + 1) ∧
           (play_queue_entry d = [] →
              PlayQueueEntry.user_priority e = Some 1 ∧
              PlayQueueEntry.playback_priority e = Some 1)) ∧
  PlayQueueEntry.user_priority <$> play_queue_entry (enqueue_all reqs db) =
    Some <$> seqZ 1 (Z.of_nat (List.length reqs)) ∧
  PlayQueueEntry.playback_priority <$> play_queue_entry (enqueue_all reqs db) =
    Some <$> seqZ 1 (Z.of_nat (List.length reqs)).
Proof.
  intros Hempty. split; [|by apply enqueue_all_columns].
  intros d track_id user_id mpd_id now.
  exists (new_entry d track_id user_id mpd_id now). simpl.
  rewrite default_user_priority_max, default_playback_priority_max.
  repeat split; intros; by subst; try rewrite H.
Qed.

Lemma enqueue_priorities_witness :
  play_queue_entry empty_db = [] ∧
  PlayQueueEntry.user_priority <$> play_queue_entry (enqueue_all sample_requests empty_db) =
    [Some 1; Some 2; Some 3] ∧
  PlayQueueEntry.playback_priority <$> play_queue_entry (enqueue_all sample_requests empty_db) =
    [Some 1; Some 2; Some 3].
Proof.
  split; [reflexivity|].
  exact (proj2 (enqueue_priorities empty_db sample_requests eq_refl)).
Defined.

(** ** The projection [as_dict] *)

Section as_dict_facts.
Variable ctime : datetime → string.

Lemma as_dict_Ok (db : DB) (self : PlayQueueEntry.t) (tr : Track.t) (t : datetime) :
  track_of db self = Some tr →
  PlayQueueEntry.time_added self = Some t →
  as_dict ctime db self = Ok (as_dict_value ctime db self tr t).
Proof.
  intros Htr Ht. unfold as_dict. rewrite Htr, Ht. reflexivity.
Qed.

Lemma as_dict_Ok_inv (db : DB) (self : PlayQueueEntry.t) (d : gmap string value) :
  as_dict ctime db self = Ok d →
  ∃ tr t, track_of db self = Some tr ∧ PlayQueueEntry.time_added self = Some t ∧
          d = as_dict_value ctime db self tr t.
Proof.
  unfold as_dict.
  destruct (track_of db self) as [tr|] eqn:Htr; [|done].
  destruct (PlayQueueEntry.time_added self) as [t|] eqn:Ht; [|done].
  intros [= <-]. by exists tr, t.
Qed.

Lemma as_dict_returns (db : DB) (self : PlayQueueEntry.t) :
  is_Some (track_of db self) →
  is_Some (PlayQueueEntry.time_added self) →
  ∃ d, as_dict ctime db self = Ok d.
Proof. intros [tr Htr] [t Ht]. eexists. by apply as_dict_Ok. Qed.

Lemma as_dict_value_user (db : DB) (self : PlayQueueEntry.t) (tr : Track.t) (t : datetime) :
  as_dict_value ctime db self tr t !! "user" =
    Some (getattr_default (User.obj <$> user_of db self) "name" (VStr "Anonymous")).
Proof. unfold as_dict_value. by rewrite lookup_insert_ne, lookup_insert_ne, lookup_insert_eq. Qed.

Lemma as_dict_value_username (db : DB) (self : PlayQueueEntry.t) (tr : Track.t) (t : datetime) :
  as_dict_value ctime db self tr t !! "username" =
    Some (getattr_default (User.obj <$> user_of db self) "username" (VStr "anonymous")).
Proof. unfold as_dict_value. by rewrite lookup_insert_ne, lookup_insert_eq. Qed.

Lemma as_dict_value_dom (db : DB) (self : PlayQueueEntry.t) (tr : Track.t) (t : datetime) :
  dom (as_dict_value ctime db self tr t) = as_dict_fields.
Proof.
  unfold as_dict_value, as_dict_fields. rewrite !dom_insert_L, dom_empty_L.
  set_solver.
Qed.

(** C5. An entry with no user attached projects to
    [user = "Anonymous"] and [username = "anonymous"]; the projection is
    produced whenever the entry has a track and an enqueue time. *)
Theorem as_dict_anonymous (db : DB) (self : PlayQueueEntry.t) :
  user_of db self = None →
  (is_Some (track_of db self) → is_Some (PlayQueueEntry.time_added self) →
     ∃ d, as_dict ctime db self = Ok d) ∧
  (∀ d, as_dict ctime db self = Ok d →
     d !! "user" = Some (VStr "Anonymous") ∧
     d !! "username" = Some (VStr "anonymous")).
Proof.
  intros Hu. split; [apply as_dict_returns|].
  intros d (tr & t & _ & _ & ->)%as_dict_Ok_inv.
  rewrite as_dict_value_user, as_dict_value_username, Hu. done.
Qed.

(** C10. With a user attached the projection carries that user's own
    [name] and [username], NULL included; the fallback literals are not
    substituted for a NULL. *)
Theorem as_dict_attached_user (db : DB) (self : PlayQueueEntry.t) (u : User.t) :
  user_of db self = Some u →
  (is_Some (track_of db self) → is_Some (PlayQueueEntry.time_added self) →
     ∃ d, as_dict ctime db self = Ok d) ∧
  (∀ d, as_dict ctime db self = Ok d →
     d !! "user" = Some (of_str (User.name u)) ∧
     d !! "username" = Some (of_str (User.username u)) ∧
     (User.name u = None → d !! "user" = Some VNone) ∧
     (User.username u = None → d !! "username" = Some VNone)).
Proof.
  intros Hu. split; [apply as_dict_returns|].
  intros d (tr & t & _ & _ & ->)%as_dict_Ok_inv.
  rewrite as_dict_value_user, as_dict_value_username, Hu. simpl.
  repeat split; by intros ->.
Qed.

(** C6, as amended. The projection has exactly fourteen fields: the
    thirteen listed ones and [user_id]. *)
Theorem as_dict_field_set (db : DB) (self : PlayQueueEntry.t) :
  (is_Some (track_of db self) → is_Some (PlayQueueEntry.time_added self) →
     ∃ d, as_dict ctime db self = Ok d) ∧
  (∀ d, as_dict ctime db self = Ok d →
     dom d = as_dict_fields ∧ dom d = listed_fields ∪ {[ "user_id" ]}).
Proof.
  split; [apply as_dict_returns|].
  intros d (tr & t & _ & _ & ->)%as_dict_Ok_inv.
  rewrite as_dict_value_dom. split; [done|].
  unfold as_dict_fields, listed_fields. set_solver.
Qed.
End as_dict_facts.

Lemma as_dict_anonymous_witness :
  user_of sample_db sample_anonymous_entry = None ∧
  ∃ d, as_dict sample_ctime sample_db sample_anonymous_entry = Ok d ∧
       d !! "user" = Some (VStr "Anonymous") ∧
       d !! "username" = Some (VStr "anonymous").
Proof.
  split; [reflexivity|].
  destruct (as_dict_anonymous sample_ctime sample_db sample_anonymous_entry eq_refl)
    as [Hret Hval].
  destruct Hret as [d Hd]; [by eexists | by eexists |].
  exists d. split; [exact Hd | exact (Hval d Hd)].
Defined.

Lemma as_dict_attached_user_witness :
  user_of sample_db sample_blank_entry = Some sample_blank_user ∧
  ∃ d, as_dict sample_ctime sample_db sample_blank_entry = Ok d ∧
       d !! "user" = Some VNone ∧ d !! "username" = Some VNone.
Proof.
  split; [reflexivity|].
  destruct (as_dict_attached_user sample_ctime sample_db sample_blank_entry
              sample_blank_user eq_refl) as [Hret Hval].
  destruct Hret as [d Hd]; [by eexists | by eexists |].
  exists d. split; [exact Hd|].
  destruct (Hval d Hd) as (_ & _ & Hn & Hu). split; [by apply Hn | by apply Hu].
Defined.

(** C6, as stated, fails: the record of [sample_anonymous_entry] has the
    field [user_id], which is not one of the thirteen listed. *)
Lemma as_dict_listed_fields_counterexample :
  ¬ (∀ d, as_dict sample_ctime sample_db sample_anonymous_entry = Ok d →
          dom d = listed_fields).
Proof.
  intros H.
  destruct (as_dict_returns sample_ctime sample_db sample_anonymous_entry)
    as [d Hd]; [by eexists | by eexists |].
  pose proof (H d Hd) as Hdom.
  apply as_dict_Ok_inv in Hd as (tr & t & _ & _ & ->).
  assert ("user_id" ∈ dom (as_dict_value sample_ctime sample_db sample_anonymous_entry tr t))
    as Hin by (rewrite as_dict_value_dom; unfold as_dict_fields; set_solver).
  rewrite Hdom in Hin. unfold listed_fields in Hin. set_solver.
Qed.

Lemma as_dict_field_set_witness :
  ∃ d, as_dict sample_ctime sample_db sample_blank_entry = Ok d ∧
       dom d = as_dict_fields.
Proof.
  destruct (as_dict_field_set sample_ctime sample_db sample_blank_entry) as [Hret Hval].
  destruct Hret as [d Hd]; [by eexists | by eexists |].
  exists d. split; [exact Hd | exact (proj1 (Hval d Hd))].
Defined.

(** ** The defaults exceed what the columns hold *)

Lemma default_above_column {A : Type} (col : A → option Z) (rows : list A) (r : A) (v : Z) :
  r ∈ rows → col r = Some v → v < max_or_zero col rows + 1.
Proof.
  intros Hin Hv. unfold max_or_zero.
  destruct (sql_max_ge col rows r v Hin Hv) as (m & -> & Hle). lia.
Qed.

(** ** Votes: targets and directions *)

(** C4, as stated, fails: a vote created without a target has neither
    reference set. *)
Lemma vote_exactly_one_target_counterexample :
  ¬ (∀ db user_id pqe_id phe_id direction v,
        v ∈ vote (insert_vote db user_id pqe_id phe_id direction) →
        exactly_one_target v).
Proof.
  intros H.
  destruct (H empty_db (Some 1) None None None _ (list_elem_of_here _ _))
    as [[[x Hx] _]|[_ [x Hx]]]; discriminate.
Qed.

(** C4, as amended. The two references of a vote are independent nullable
    columns, stored as given: a vote has a queue entry, a history entry,
    neither or both, and exactly one of them only in the first two cases. *)
Theorem vote_target_references (db : DB) (user_id pqe_id phe_id direction : option Z) :
  ∃ v, vote (insert_vote db user_id pqe_id phe_id direction) = vote db ++ [v] ∧
       Vote.user_id v = user_id ∧
       Vote.pqe_id v = pqe_id ∧
       Vote.phe_id v = phe_id ∧
       shape v = match pqe_id, phe_id with
                 | None, None => NoTarget
                 | Some _, None => QueueOnly
                 | None, Some _ => HistoryOnly
                 | Some _, Some _ => BothTargets
                 end ∧
       (exactly_one_target v ↔ shape v = QueueOnly ∨ shape v = HistoryOnly).
Proof.
  exists (new_vote db user_id pqe_id phe_id direction).
  repeat split; try done.
  - intros [[[x Hx] Hh]|[Hq [x Hx]]]; simpl in *; subst; unfold shape; simpl; auto.
  - unfold shape, exactly_one_target. simpl.
    destruct pqe_id, phe_id; intros [|]; try discriminate.
    + left. eauto.
    + right. eauto.
Qed.

(** ** Updating the first matching row *)

Section update_first.
Context {A : Type} (p : A → bool) (f : A → A).

Lemma update_first_fmap {B : Type} (g : A → B) (l : list A) :
  (∀ x, g (f x) = g x) → g <$> update_first p f l = g <$> l.
Proof.
  intros Hg. induction l as [|x l IH]; cbn [update_first]; [done|].
  destruct (p x); rewrite !fmap_cons; [by rewrite Hg | by rewrite IH].
Qed.

Lemma update_first_Forall (P : A → Prop) (l : list A) :
  (∀ x, P x → P (f x)) → Forall P l → Forall P (update_first p f l).
Proof.
  intros Hf. induction 1 as [|x l Hx Hl IH]; simpl; [constructor|].
  destruct (p x); constructor; auto.
Qed.

Lemma update_first_filter (q : A → bool) (l : list A) :
  (∀ x, q (f x) = q x) →
  List.length (filter (fun x => q x = true) (update_first p f l)) =
    List.length (filter (fun x => q x = true) l).
Proof.
  intros Hq. induction l as [|x l IH]; simpl; [done|].
  destruct (p x).
  - rewrite !filter_cons, Hq. by destruct (decide (q x = true)).
  - rewrite !filter_cons. destruct (decide (q x = true)); simpl; by rewrite IH.
Qed.

(** Rows that [p] rejects, before and after the update, are untouched. *)
Lemma update_first_filter_other (q : A → bool) (l : list A) :
  (∀ x, p x = true → q x = false ∧ q (f x) = false) →
  filter (fun x => q x = true) (update_first p f l) =
    filter (fun x => q x = true) l.
Proof.
  intros Hq. induction l as [|x l IH]; simpl; [done|].
  destruct (p x) eqn:Hp.
  - destruct (Hq x Hp) as [Hx Hfx].
    rewrite !filter_cons, Hx, Hfx. by destruct (decide (false = true)).
  - rewrite !filter_cons. destruct (decide (q x = true)); by rewrite IH.
Qed.

Hypothesis f_keeps : ∀ x, p (f x) = p x.

Lemma update_first_existsb (l : list A) :
  existsb p (update_first p f l) = existsb p l.
Proof.
  induction l as [|x l IH]; simpl; [done|].
  destruct (p x) eqn:Hp; simpl; [by rewrite f_keeps, Hp | by rewrite Hp, IH].
Qed.

Lemma update_first_idem (l : list A) :
  (∀ x, f (f x) = f x) →
  update_first p f (update_first p f l) = update_first p f l.
Proof.
  intros Hf. induction l as [|x l IH]; simpl; [done|].
  destruct (p x) eqn:Hp; simpl.
  - by rewrite f_keeps, Hp, Hf.
  - by rewrite Hp, IH.
Qed.

(** With at most one matching row, the updated row is the only match. *)
Lemma update_first_only (l : list A) :
  existsb p l = true →
  (List.length (filter (fun x => p x = true) l) ≤ 1)%nat →
  ∃ x, x ∈ l ∧ p x = true ∧
       filter (fun x => p x = true) (update_first p f l) = [f x].
Proof.
  induction l as [|x l IH]; simpl; [done|].
  destruct (p x) eqn:Hp; simpl.
  - intros _. rewrite filter_cons_True by done. simpl. intros Hlen.
    exists x. split; [by left|]. split; [done|].
    rewrite filter_cons_True by (by rewrite f_keeps).
    f_equal. apply nil_length_inv. lia.
  - intros Hex. rewrite filter_cons_False by (by rewrite Hp). intros Hlen.
    destruct (IH Hex Hlen) as (y & Hy & Hpy & Hfil).
    exists y. split; [by right|]. split; [done|].
    by rewrite filter_cons_False by (by rewrite Hp).
Qed.
End update_first.

Lemma update_first_app_nomatch {A : Type} (p : A → bool) (f : A → A) (l l' : list A) :
  existsb p l = false → update_first p f (l ++ l') = l ++ update_first p f l'.
Proof.
  induction l as [|x l IH]; simpl; [done|].
  destruct (p x); simpl; [done|]. intros H. by rewrite IH.
Qed.

Lemma existsb_false_filter {A : Type} (p : A → bool) (l : list A) :
  existsb p l = false → filter (fun x => p x = true) l = [].
Proof.
  induction l as [|x l IH]; simpl; [done|].
  destruct (p x) eqn:Hp; simpl; [done|]. intros H.
  rewrite filter_cons_False by (by rewrite Hp). by apply IH.
Qed.

(** ** The vote aggregator *)

Lemma votes_on_set_direction (t : Target) (d : Z) (v : Vote.t) :
  votes_on t (set_direction d v) = votes_on t v.
Proof. by destruct t. Qed.

Lemma vote_of_set_direction (u : Z) (t : Target) (d : Z) (v : Vote.t) :
  vote_of u t (set_direction d v) = vote_of u t v.
Proof. unfold vote_of. by rewrite votes_on_set_direction. Qed.

Lemma set_direction_idem (d : Z) (v : Vote.t) :
  set_direction d (set_direction d v) = set_direction d v.
Proof. done. Qed.

Lemma votes_on_target (t : Target) (v : Vote.t) :
  Vote.pqe_id v = target_pqe t → Vote.phe_id v = target_phe t → votes_on t v = true.
Proof. destruct t; simpl; intros Hq Hh; by apply bool_decide_eq_true. Qed.

(** The row [cast_vote] inserts is a vote of [u] on [t], and of nobody
    else, on nothing else. *)
Lemma vote_of_new_vote (db : DB) (u u' : Z) (t t' : Target) (d : Z) :
  vote_of u' t' (new_vote db (Some u) (target_pqe t) (target_phe t) (Some d)) = true ↔
  u' = u ∧ t' = t.
Proof.
  unfold vote_of, new_vote. rewrite andb_true_iff, bool_decide_eq_true.
  destruct t as [q|h], t' as [q'|h']; cbn [votes_on target_pqe target_phe Vote.user_id
                                           Vote.pqe_id Vote.phe_id];
    rewrite bool_decide_eq_true; split; intros [H1 H2]; simplify_eq; done.
Qed.

Lemma target_exists_set_vote (rows : list Vote.t) (db : DB) (t : Target) :
  target_exists (set_vote rows db) t = target_exists db t.
Proof. by destruct t. Qed.

Lemma cast_vote_update (db : DB) (u : Z) (t : Target) (d : Z) :
  target_exists db t = true →
  existsb (vote_of u t) (vote db) = true →
  cast_vote db u t d =
    Ok (set_vote (update_first (vote_of u t) (set_direction d) (vote db)) db).
Proof. intros Ht Hex. unfold cast_vote. by rewrite Ht, Hex. Qed.

Lemma cast_vote_insert (db : DB) (u : Z) (t : Target) (d : Z) :
  target_exists db t = true →
  existsb (vote_of u t) (vote db) = false →
  cast_vote db u t d =
    Ok (set_vote (vote db ++ [new_vote db (Some u) (target_pqe t) (target_phe t) (Some d)]) db).
Proof. intros Ht Hex. unfold cast_vote. by rewrite Ht, Hex. Qed.

Lemma cast_vote_missing_target (db : DB) (u : Z) (t : Target) (d : Z) :
  target_exists db t = false →
  cast_vote db u t d = Raise ReferentialIntegrityViolation.
Proof. intros Ht. unfold cast_vote. by rewrite Ht. Qed.

Lemma sumZ_cons (x : Z) (l : list Z) : sumZ (x :: l) = x + sumZ l.
Proof. done. Qed.

(** The votes on [t] are those of [u] and those of the others. *)
Lemma tally_split (u : Z) (t : Target) (votes : list Vote.t) :
  sumZ (direction_value <$> filter (fun v => votes_on t v = true) votes) =
    sumZ (direction_value <$> filter (fun v => vote_of u t v = true) votes) +
    sumZ (direction_value <$> filter (fun v => others_on u t v = true) votes).
Proof.
  induction votes as [|v votes IH]; [done|].
  rewrite !filter_cons.
  destruct (decide (votes_on t v = true)) as [Ht|Ht],
           (decide (vote_of u t v = true)) as [Hv|Hv],
           (decide (others_on u t v = true)) as [Ho|Ho];
    rewrite ?fmap_cons, ?sumZ_cons; try lia; exfalso;
    unfold others_on, vote_of in *;
    destruct (votes_on t v), (bool_decide (Vote.user_id v = Some u));
    simpl in *; congruence.
Qed.

Lemma others_on_vote_of (u : Z) (t : Target) (v : Vote.t) :
  vote_of u t v = true → others_on u t v = false.
Proof. unfold others_on. intros ->. by rewrite andb_false_r. Qed.

Lemma cast_vote_Ok_inv (db db1 : DB) (u : Z) (t : Target) (d : Z) :
  cast_vote db u t d = Ok db1 →
  target_exists db t = true ∧
  ((existsb (vote_of u t) (vote db) = true ∧
    db1 = set_vote (update_first (vote_of u t) (set_direction d) (vote db)) db) ∨
   (existsb (vote_of u t) (vote db) = false ∧
    db1 = set_vote (vote db ++ [new_vote db (Some u) (target_pqe t) (target_phe t) (Some d)])
                   db)).
Proof.
  unfold cast_vote.
  destruct (target_exists db t); [|done].
  destruct (existsb (vote_of u t) (vote db)); intros [= <-]; auto.
Qed.

Lemma cast_vote_returns (db : DB) (u : Z) (t : Target) (d : Z) :
  target_exists db t = true → ∃ db1, cast_vote db u t d = Ok db1.
Proof.
  intros Ht. destruct (existsb (vote_of u t) (vote db)) eqn:Hex.
  - eexists. by apply cast_vote_update.
  - eexists. by apply cast_vote_insert.
Qed.

(** Casting the same vote again changes nothing. *)
Lemma cast_vote_idempotent (db db1 : DB) (u : Z) (t : Target) (d : Z) :
  cast_vote db u t d = Ok db1 → cast_vote db1 u t d = Ok db1.
Proof.
  intros (Ht & [[Hex ->]|[Hex ->]])%cast_vote_Ok_inv.
  - rewrite cast_vote_update.
    + simpl. rewrite update_first_idem; [done| |done].
      intros v. apply vote_of_set_direction.
    + by rewrite target_exists_set_vote.
    + simpl. rewrite update_first_existsb; [done|].
      intros v. apply vote_of_set_direction.
  - rewrite cast_vote_update.
    + simpl. rewrite update_first_app_nomatch by done. simpl.
      assert (vote_of u t (new_vote db (Some u) (target_pqe t) (target_phe t) (Some d)) = true)
        as -> by (by apply vote_of_new_vote).
      done.
    + by rewrite target_exists_set_vote.
    + simpl. rewrite existsb_app. simpl.
      assert (vote_of u t (new_vote db (Some u) (target_pqe t) (target_phe t) (Some d)) = true)
        as -> by (by apply vote_of_new_vote).
      by rewrite orb_true_r.
Qed.

(** [cast_vote] keeps the votes at most one per user and target. *)
Lemma cast_vote_unique (db db1 : DB) (u : Z) (t : Target) (d : Z) :
  vote_unique (vote db) → cast_vote db u t d = Ok db1 → vote_unique (vote db1).
Proof.
  intros Huniq (Ht & [[Hex ->]|[Hex ->]])%cast_vote_Ok_inv u' t'; simpl.
  - rewrite update_first_filter; [apply Huniq|].
    intros v. apply vote_of_set_direction.
  - rewrite filter_app, length_app, filter_cons, filter_nil.
    case_decide as Hnew; simpl.
    + apply vote_of_new_vote in Hnew as [-> ->].
      rewrite existsb_false_filter by done. simpl. lia.
    + specialize (Huniq u' t'). lia.
Qed.

(** After [cast_vote], the user has one vote on the target, with the
    direction cast. *)
Lemma cast_vote_single_row (db db1 : DB) (u : Z) (t : Target) (d : Z) :
  vote_unique (vote db) → cast_vote db u t d = Ok db1 →
  ∃ v, filter (fun v => vote_of u t v = true) (vote db1) = [v] ∧
       Vote.direction v = Some d.
Proof.
  intros Huniq (Ht & [[Hex ->]|[Hex ->]])%cast_vote_Ok_inv; simpl.
  - destruct (update_first_only (vote_of u t) (set_direction d)
                (fun v => vote_of_set_direction u t d v) (vote db) Hex (Huniq u t))
      as (v & _ & _ & ->).
    by eexists.
  - rewrite filter_app, existsb_false_filter by done.
    rewrite filter_cons_True by (by apply vote_of_new_vote). rewrite filter_nil.
    by eexists.
Qed.

(** [cast_vote] leaves the votes of the other users on the target alone. *)
Lemma cast_vote_others (db db1 : DB) (u : Z) (t : Target) (d : Z) :
  cast_vote db u t d = Ok db1 →
  filter (fun v => others_on u t v = true) (vote db1) =
    filter (fun v => others_on u t v = true) (vote db).
Proof.
  intros (Ht & [[Hex ->]|[Hex ->]])%cast_vote_Ok_inv; simpl.
  - apply update_first_filter_other. intros v Hv. split.
    + by apply others_on_vote_of.
    + apply others_on_vote_of. by rewrite vote_of_set_direction.
  - rewrite filter_app, filter_cons_False, filter_nil, app_nil_r; [done|].
    rewrite others_on_vote_of; [done|]. by apply vote_of_new_vote.
Qed.

(** An existing vote is updated in place: same rows, same keys, same
    users, same targets. *)
Lemma cast_vote_in_place (db db1 : DB) (u : Z) (t : Target) (d : Z) :
  existsb (vote_of u t) (vote db) = true → cast_vote db u t d = Ok db1 →
  (fun v => (Vote.id v, Vote.user_id v, Vote.pqe_id v, Vote.phe_id v)) <$> vote db1 =
  (fun v => (Vote.id v, Vote.user_id v, Vote.pqe_id v, Vote.phe_id v)) <$> vote db.
Proof.
  intros Hex (Ht & [[_ ->]|[Hex' ->]])%cast_vote_Ok_inv; [|congruence].
  simpl. by apply update_first_fmap.
Qed.

Lemma cast_vote_tally (db db1 : DB) (u : Z) (t : Target) (d : Z) :
  vote_unique (vote db) → cast_vote db u t d = Ok db1 →
  tally db1 t =
    d + sumZ (direction_value <$> filter (fun v => others_on u t v = true) (vote db)).
Proof.
  intros Huniq Hcast. unfold tally. rewrite (tally_split u).
  rewrite (cast_vote_others _ _ _ _ _ Hcast).
  destruct (cast_vote_single_row _ _ _ _ _ Huniq Hcast) as (v & -> & Hd).
  rewrite fmap_cons, fmap_nil, sumZ_cons. unfold direction_value. rewrite Hd.
  simpl. lia.
Qed.

Lemma vote_unique_nil : vote_unique [].
Proof. intros u t. rewrite filter_nil. simpl. lia. Qed.

Lemma filter_fmap_length_le {A : Type} (p q : A → bool) (f : A → A) (l : list A) :
  (∀ x, x ∈ l → p (f x) = true → q x = true) →
  (List.length (filter (fun x => p x = true) (f <$> l)) ≤
   List.length (filter (fun x => q x = true) l))%nat.
Proof.
  induction l as [|x l IH]; intros Hpq; [done|].
  rewrite fmap_cons, !filter_cons.
  assert ((List.length (filter (fun x => p x = true) (f <$> l)) ≤
           List.length (filter (fun x => q x = true) l))%nat) as Hle.
  { apply IH. intros y Hy. apply Hpq. by right. }
  destruct (decide (p (f x) = true)) as [Hp|Hp].
  - rewrite decide_True by (apply Hpq; [by left|done]). simpl. lia.
  - case_decide; simpl; lia.
Qed.

Lemma repoint_hit (q h : Z) (v : Vote.t) :
  Vote.pqe_id v = Some q →
  repoint q h v = Vote.mk (Vote.id v) (Vote.user_id v) None (Some h) (Vote.direction v).
Proof. intros Hq. unfold repoint. by rewrite bool_decide_eq_true_2. Qed.

Lemma repoint_miss (q h : Z) (v : Vote.t) :
  Vote.pqe_id v ≠ Some q → repoint q h v = v.
Proof. intros Hq. unfold repoint. by rewrite bool_decide_eq_false_2. Qed.

Lemma repoint_ballot (q h : Z) (v : Vote.t) :
  Vote.id (repoint q h v) = Vote.id v ∧
  Vote.user_id (repoint q h v) = Vote.user_id v ∧
  Vote.direction (repoint q h v) = Vote.direction v.
Proof. unfold repoint. by case_bool_decide. Qed.

(** The votes on the history entry after the migration are the re-pointed
    votes on the queue entry, in the same order. *)
Lemma migrate_votes_filter (q h : Z) (votes : list Vote.t) :
  Forall (fun v => Vote.phe_id v ≠ Some h) votes →
  filter (fun v => votes_on (HistoryTarget h) v = true) (repoint q h <$> votes) =
    repoint q h <$> filter (fun v => votes_on (QueueTarget q) v = true) votes.
Proof.
  induction 1 as [|v votes Hv _ IH]; [done|].
  rewrite fmap_cons, !filter_cons, IH.
  destruct (decide (Vote.pqe_id v = Some q)) as [Hq|Hq].
  - rewrite (repoint_hit q h v Hq). simpl.
    rewrite !decide_True by (by apply bool_decide_eq_true_2).
    by rewrite fmap_cons, (repoint_hit q h v Hq).
  - rewrite (repoint_miss q h v Hq). simpl.
    by rewrite !decide_False by (by rewrite bool_decide_eq_false_2).
Qed.

(** No vote is left on the queue entry. *)
Lemma migrate_votes_none_left (q h : Z) (votes : list Vote.t) :
  filter (fun v => votes_on (QueueTarget q) v = true) (repoint q h <$> votes) = [].
Proof.
  induction votes as [|v votes IH]; [done|].
  rewrite fmap_cons, filter_cons, IH.
  rewrite decide_False; [done|]. simpl. rewrite bool_decide_eq_false_2; [done|].
  destruct (decide (Vote.pqe_id v = Some q)) as [Hq|Hq].
  - by rewrite (repoint_hit q h v Hq).
  - by rewrite (repoint_miss q h v Hq).
Qed.

Lemma vote_migrate_votes (db : DB) (q h : Z) :
  vote (migrate_votes db q h) = repoint q h <$> vote db.
Proof. done. Qed.


(** [migrate_votes] to a new history entry keeps the votes at most one per
    user and target. *)
Lemma migrate_votes_unique (db : DB) (q h : Z) :
  Forall (fun v => Vote.phe_id v ≠ Some h) (vote db) →
  vote_unique (vote db) → vote_unique (vote (migrate_votes db q h)).
Proof.
  intros Hfresh Huniq u t. rewrite vote_migrate_votes.
  destruct (decide (t = HistoryTarget h)) as [->|Ht].
  - etrans; [|apply (Huniq u (QueueTarget q))].
    apply filter_fmap_length_le. intros v Hv.
    rewrite Forall_forall in Hfresh. specialize (Hfresh v Hv).
    unfold vote_of. rewrite !andb_true_iff. simpl. rewrite !bool_decide_eq_true.
    destruct (decide (Vote.pqe_id v = Some q)) as [Hq|Hq].
    + rewrite (repoint_hit q h v Hq). simpl. by intros [-> _].
    + rewrite (repoint_miss q h v Hq). by intros [_ ?].
  - etrans; [|apply (Huniq u t)].
    apply filter_fmap_length_le. intros v _.
    destruct (decide (Vote.pqe_id v = Some q)) as [Hq|Hq].
    + rewrite (repoint_hit q h v Hq).
      unfold vote_of. rewrite !andb_true_iff.
      destruct t as [q'|h']; simpl; rewrite !bool_decide_eq_true;
        intros [_ ?]; simplify_eq.
    + by rewrite (repoint_miss q h v Hq).
Qed.

Lemma vote_step_unique (db db' : DB) :
  vote_step db db' → vote_unique (vote db) → vote_unique (vote db').
Proof.
  intros [? u t d ? Hcast|? q h Hfresh] Huniq.
  - by eapply cast_vote_unique.
  - by apply migrate_votes_unique.
Qed.

(** Every store the aggregator reaches has at most one vote per user and
    target. *)
Lemma reachable_unique (db : DB) : reachable db → vote_unique (vote db).
Proof.
  intros (db0 & Hempty & Hsteps).
  apply (rtc_ind_r (R := vote_step) (fun db => vote_unique (vote db)) db0); [| |done].
  - rewrite Hempty. apply vote_unique_nil.
  - intros y z _ Hstep IH. by eapply vote_step_unique.
Qed.

Lemma sample_vote_db_reachable : reachable sample_vote_db.
Proof.
  exists sample_queue_db. split; [done|].
  eapply rtc_l; [by apply (step_cast_vote _ 1 (QueueTarget 1) 1)|].
  eapply rtc_l; [by apply (step_cast_vote _ 2 (QueueTarget 1) (-1))|].
  eapply rtc_l; [by apply (step_cast_vote _ 3 (QueueTarget 2) 1)|].
  apply rtc_refl.
Qed.

Lemma sample_vote_db_unique : vote_unique (vote sample_vote_db).
Proof. apply reachable_unique, sample_vote_db_reachable. Qed.

(** C2. Every store the aggregator reaches from one without votes holds
    at most one vote per user and target.  On such a store [cast_vote] on
    an existing target returns a store that again has at most one vote per
    user and target; an existing vote of the user on the target is updated
    in place, no row being added; the user then has exactly one vote on the
    target, with the direction cast; casting the same vote again returns
    the same store; and the tally of the target is the direction cast plus
    the votes of the other users, hence the direction cast when nobody else
    has voted on the target. *)
Theorem cast_vote_one_row_per_user_and_target (db : DB) :
  reachable db →
  vote_unique (vote db) ∧
  ∀ (u : Z) (t : Target) (d : Z),
    target_exists db t = true →
    ∃ db1,
      cast_vote db u t d = Ok db1 ∧
      cast_vote db1 u t d = Ok db1 ∧
      vote_unique (vote db1) ∧
      (∃ v, filter (fun v => vote_of u t v = true) (vote db1) = [v] ∧
            Vote.direction v = Some d) ∧
      (existsb (vote_of u t) (vote db) = true →
         (fun v => (Vote.id v, Vote.user_id v, Vote.pqe_id v, Vote.phe_id v)) <$> vote db1 =
         (fun v => (Vote.id v, Vote.user_id v, Vote.pqe_id v, Vote.phe_id v)) <$> vote db) ∧
      tally db1 t =
        d + sumZ (direction_value <$> filter (fun v => others_on u t v = true) (vote db)) ∧
      (filter (fun v => others_on u t v = true) (vote db) = [] → tally db1 t = d).
Proof.
  intros Hreach. pose proof (reachable_unique db Hreach) as Huniq.
  split; [done|]. intros u t d Ht.
  destruct (cast_vote_returns db u t d Ht) as [db1 Hcast].
  exists db1. split; [done|].
  split; [by eapply cast_vote_idempotent|].
  split; [by eapply cast_vote_unique|].
  split; [by eapply cast_vote_single_row|].
  split; [intros Hex; by eapply cast_vote_in_place|].
  pose proof (cast_vote_tally _ _ _ _ _ Huniq Hcast) as Htally.
  split; [done|].
  intros Hnone. rewrite Htally, Hnone. simpl. lia.
Qed.

Lemma cast_vote_one_row_per_user_and_target_witness :
  target_exists sample_vote_db (QueueTarget 1) = true ∧
  ∃ db1, cast_vote sample_vote_db 2 (QueueTarget 1) 1 = Ok db1 ∧
         cast_vote db1 2 (QueueTarget 1) 1 = Ok db1 ∧
         List.length (vote db1) = 3%nat ∧
         tally db1 (QueueTarget 1) = 2.
Proof.
  split; [reflexivity|].
  destruct (proj2 (cast_vote_one_row_per_user_and_target sample_vote_db
                     sample_vote_db_reachable) 2 (QueueTarget 1) 1 eq_refl)
    as (db1 & Hcast & Hagain & _ & _ & Hplace & Htally & _).
  exists db1. split; [exact Hcast|]. split; [exact Hagain|]. split.
  - specialize (Hplace eq_refl). apply (f_equal List.length) in Hplace.
    rewrite !length_fmap in Hplace. exact Hplace.
  - rewrite Htally. reflexivity.
Defined.

(** C7, as stated, fails: a vote created with direction 5 is stored with
    direction 5. *)
Lemma vote_direction_counterexample :
  ¬ (∀ db user_id pqe_id phe_id direction v,
        v ∈ vote (insert_vote db user_id pqe_id phe_id direction) →
        documented_direction (Vote.direction v)).
Proof.
  intros H.
  destruct (H empty_db (Some 1) (Some 1) None (Some 5) _ (list_elem_of_here _ _))
    as [|[|]]; discriminate.
Qed.

(** C7, as amended. The direction of a vote is the integer it was created
    with, and 0 when it was created without one; [cast_vote] with a
    direction among -1, 0 and 1 keeps every direction of the store among
    them; retracting a vote, that is casting 0 where the user has a vote,
    keeps every row and sets the direction of that vote to 0. *)
Theorem vote_direction :
  (∀ db user_id pqe_id phe_id,
      ∃ v, vote (insert_vote db user_id pqe_id phe_id None) = vote db ++ [v] ∧
           Vote.direction v = Some 0) ∧
  (∀ db user_id pqe_id phe_id d,
      ∃ v, vote (insert_vote db user_id pqe_id phe_id (Some d)) = vote db ++ [v] ∧
           Vote.direction v = Some d) ∧
  (∀ db db1 u t d,
      documented_direction (Some d) →
      Forall (fun v => documented_direction (Vote.direction v)) (vote db) →
      cast_vote db u t d = Ok db1 →
      Forall (fun v => documented_direction (Vote.direction v)) (vote db1)) ∧
  (∀ db u t,
      target_exists db t = true →
      vote_unique (vote db) →
      existsb (vote_of u t) (vote db) = true →
      ∃ db1, cast_vote db u t 0 = Ok db1 ∧
             (fun v => (Vote.id v, Vote.user_id v, Vote.pqe_id v, Vote.phe_id v)) <$> vote db1 =
             (fun v => (Vote.id v, Vote.user_id v, Vote.pqe_id v, Vote.phe_id v)) <$> vote db ∧
             ∃ v, filter (fun v => vote_of u t v = true) (vote db1) = [v] ∧
                  Vote.direction v = Some 0).
Proof.
  split; [|split; [|split]].
  - intros. by eexists.
  - intros. by eexists.
  - intros db db1 u t d Hd Hall (Ht & [[Hex ->]|[Hex ->]])%cast_vote_Ok_inv; simpl.
    + by apply update_first_Forall.
    + apply Forall_app. split; [done|]. by constructor.
  - intros db u t Ht Huniq Hex.
    destruct (cast_vote_returns db u t 0 Ht) as [db1 Hcast].
    exists db1. split; [done|]. split.
    + by eapply cast_vote_in_place.
    + by eapply cast_vote_single_row.
Qed.

Lemma vote_direction_witness :
  ∃ db1, cast_vote sample_vote_db 2 (QueueTarget 1) 0 = Ok db1 ∧
         List.length (vote db1) = 3%nat ∧
         ∃ v, filter (fun v => vote_of 2 (QueueTarget 1) v = true) (vote db1) = [v] ∧
              Vote.direction v = Some 0.
Proof.
  destruct (proj2 (proj2 (proj2 vote_direction)) sample_vote_db 2 (QueueTarget 1)
              eq_refl sample_vote_db_unique eq_refl)
    as (db1 & Hcast & Hplace & Hrow).
  exists db1. split; [exact Hcast|]. split; [|exact Hrow].
  apply (f_equal List.length) in Hplace. rewrite !length_fmap in Hplace. exact Hplace.
Defined.

(** ** Migration preserves the votes *)

(** C3. When no vote refers to the history entry yet, [migrate_votes]
    leaves on it the votes that were on the queue entry, with the same
    users and directions -- the same list of pairs, so the same multiset --
    hence the same tally; no vote is left on the queue entry, and no row is
    added or removed. *)
Theorem migrate_votes_preserves_ballots (db : DB) (q h : Z) :
  Forall (fun v => Vote.phe_id v ≠ Some h) (vote db) →
  ballots (migrate_votes db q h) (HistoryTarget h) = ballots db (QueueTarget q) ∧
  ballots (migrate_votes db q h) (HistoryTarget h) ≡ₚ ballots db (QueueTarget q) ∧
  tally (migrate_votes db q h) (HistoryTarget h) = tally db (QueueTarget q) ∧
  ballots (migrate_votes db q h) (QueueTarget q) = [] ∧
  Vote.id <$> vote (migrate_votes db q h) = Vote.id <$> vote db.
Proof.
  intros Hfresh.
  assert (ballots (migrate_votes db q h) (HistoryTarget h) = ballots db (QueueTarget q))
    as Hballots.
  { unfold ballots. rewrite vote_migrate_votes.
    rewrite migrate_votes_filter by done. rewrite <- list_fmap_compose.
    apply list_fmap_ext. intros _ v _. simpl.
    destruct (repoint_ballot q h v) as (_ & -> & ->). done. }
  split; [done|]. split; [by rewrite Hballots|]. split; [|split].
  - unfold tally. rewrite vote_migrate_votes.
    rewrite migrate_votes_filter by done. rewrite <- list_fmap_compose.
    f_equal. apply list_fmap_ext. intros _ v _. simpl.
    unfold direction_value. by destruct (repoint_ballot q h v) as (_ & _ & ->).
  - unfold ballots. rewrite vote_migrate_votes. by rewrite migrate_votes_none_left.
  - rewrite vote_migrate_votes, <- list_fmap_compose.
    apply list_fmap_ext. intros _ v _. simpl. apply repoint_ballot.
Qed.

Lemma migrate_votes_preserves_ballots_witness :
  ballots (migrate_votes sample_vote_db 1 2) (HistoryTarget 2) =
    [ (Some 1, Some 1); (Some 2, Some (-1)) ] ∧
  tally (migrate_votes sample_vote_db 1 2) (HistoryTarget 2) = 0.
Proof.
  assert (Forall (fun v => Vote.phe_id v ≠ Some 2) (vote sample_vote_db)) as Hfresh
    by (repeat constructor; discriminate).
  destruct (migrate_votes_preserves_ballots sample_vote_db 1 2 Hfresh)
    as (Hballots & _ & Htally & _).
  split; [rewrite Hballots | rewrite Htally]; reflexivity.
Defined.

(** * Further properties *)

(** ** Numbering of a queue that is not empty *)

Lemma max_or_zero_snoc {A : Type} (col : A → option Z) (rows : list A) (x : A) :
  col x = Some (max_or_zero col rows + 1) →
  max_or_zero col (rows ++ [x]) = max_or_zero col rows + 1.
Proof.
  intros Hx. unfold max_or_zero in *. rewrite sql_max_app. simpl. rewrite Hx.
  destruct (sql_max col rows) as [m|]; [lia|done].
Qed.

Lemma max_or_zero_enqueue (db : DB) (track_id user_id mpd_id : option Z) (now : datetime) :
  max_or_zero PlayQueueEntry.user_priority
    (play_queue_entry (enqueue db track_id user_id mpd_id now)) =
    max_or_zero PlayQueueEntry.user_priority (play_queue_entry db) + 1 ∧
  max_or_zero PlayQueueEntry.playback_priority
    (play_queue_entry (enqueue db track_id user_id mpd_id now)) =
    max_or_zero PlayQueueEntry.playback_priority (play_queue_entry db) + 1.
Proof.
  split; apply max_or_zero_snoc; simpl;
    by rewrite ?default_user_priority_max, ?default_playback_priority_max.
Qed.

(** X1. On any queue, empty or not, [N] enqueues served one after the
    other append [N] rows and touch nothing else: the rows already there
    and the other four tables are unchanged, the new rows carry what the
    requests supplied, in order, and their priorities continue each column
    from its largest value: max + 1, ..., max + N. *)
Theorem enqueue_all_appends (reqs : list request) (db : DB) :
  ∃ new,
    play_queue_entry (enqueue_all reqs db) = play_queue_entry db ++ new ∧
    entry_columns <$> new = request_columns <$> reqs ∧
    PlayQueueEntry.user_priority <$> new =
      Some <$> seqZ (max_or_zero PlayQueueEntry.user_priority (play_queue_entry db) + 1)
                    (Z.of_nat (List.length reqs)) ∧
    PlayQueueEntry.playback_priority <$> new =
      Some <$> seqZ (max_or_zero PlayQueueEntry.playback_priority (play_queue_entry db) + 1)
                    (Z.of_nat (List.length reqs)) ∧
    user (enqueue_all reqs db) = user db ∧
    track (enqueue_all reqs db) = track db ∧
    play_history_entry (enqueue_all reqs db) = play_history_entry db ∧
    vote (enqueue_all reqs db) = vote db.
Proof.
  revert db. induction reqs as [|r reqs IH]; intros db.
  - exists []. rewrite app_nil_r. done.
  - destruct (IH (enqueue db (req_track r) (req_user r) (req_mpd r) (req_now r)))
      as (new & Hq & Hcols & Hu & Hp & Htu & Htt & Hth & Htv).
    destruct (max_or_zero_enqueue db (req_track r) (req_user r) (req_mpd r) (req_now r))
      as [Hmu Hmp].
    exists (new_entry db (req_track r) (req_user r) (req_mpd r) (req_now r) :: new).
    change (enqueue_all (r :: reqs) db)
      with (enqueue_all reqs (enqueue db (req_track r) (req_user r) (req_mpd r) (req_now r))).
    rewrite Hq, Htu, Htt, Hth, Htv. cbn [List.length].
    rewrite Nat2Z.inj_succ, !(seqZ_cons _ (Z.succ _)) by lia.
    rewrite Z.pred_succ, !fmap_cons, Hcols, Hu, Hp, Hmu, Hmp. simpl.
    rewrite default_user_priority_max, default_playback_priority_max.
    rewrite <- app_assoc. repeat split; try reflexivity.
    all: f_equal.
Qed.

Lemma priority_ordered_snoc {A : Type} (col : A → option Z) (rows : list A) (x : A) :
  col x = Some (max_or_zero col rows + 1) →
  priority_ordered col rows → priority_ordered col (rows ++ [x]).
Proof.
  intros Hx (vs & Hvs & Hsorted).
  exists (vs ++ [max_or_zero col rows + 1]). split.
  - by rewrite !fmap_app, Hvs, fmap_cons, Hx.
  - apply StronglySorted_app_2; [|done|repeat constructor].
    intros v w Hv ->%list_elem_of_singleton.
    assert (Some v ∈ col <$> rows) as (r & Hr & Hin)%list_elem_of_fmap
        by (rewrite Hvs; by apply list_elem_of_fmap_2).
    by eapply default_above_column.
Qed.

(** X2. A queue whose playback priorities increase strictly from each row
    to the next keeps that property under any number of enqueues, and so
    does the user-priority column: insertion order and priority order
    never come apart, and no priority is handed out twice. *)
Theorem enqueue_all_keeps_order (reqs : list request) (db : DB) :
  (priority_ordered PlayQueueEntry.playback_priority (play_queue_entry db) →
   priority_ordered PlayQueueEntry.playback_priority (play_queue_entry (enqueue_all reqs db)) ∧
   NoDup (PlayQueueEntry.playback_priority <$> play_queue_entry (enqueue_all reqs db))) ∧
  (priority_ordered PlayQueueEntry.user_priority (play_queue_entry db) →
   priority_ordered PlayQueueEntry.user_priority (play_queue_entry (enqueue_all reqs db)) ∧
   NoDup (PlayQueueEntry.user_priority <$> play_queue_entry (enqueue_all reqs db))).
Proof.
  assert (∀ {A} (col : A → option Z) rows,
             priority_ordered col rows → NoDup (col <$> rows)) as Hnodup.
  { intros A col rows (vs & -> & Hsorted).
    apply (NoDup_fmap_2 _). induction Hsorted as [|v vs _ IH Hall]; constructor; [|done].
    intros Hin. rewrite Forall_forall in Hall. specialize (Hall v Hin). lia. }
  revert db. induction reqs as [|r reqs IH]; intros db.
  - split; intros H; (split; [done | by apply Hnodup]).
  - change (enqueue_all (r :: reqs) db)
      with (enqueue_all reqs (enqueue db (req_track r) (req_user r) (req_mpd r) (req_now r))).
    destruct (IH (enqueue db (req_track r) (req_user r) (req_mpd r) (req_now r)))
      as [IHp IHu].
    split; intros H; [apply IHp | apply IHu]; apply priority_ordered_snoc; try done; simpl;
      by rewrite ?default_user_priority_max, ?default_playback_priority_max.
Qed.

Lemma enqueue_all_keeps_order_witness :
  NoDup (PlayQueueEntry.playback_priority <$>
           play_queue_entry (enqueue_all sample_requests sample_vote_db)).
Proof.
  refine (proj2 (proj1 (enqueue_all_keeps_order sample_requests sample_vote_db) _)).
  exists [1; 2]. split; [reflexivity|].
  repeat constructor; lia.
Defined.

(** ** Failure and contents of the projection *)

Section as_dict_more.
Variable ctime : datetime → string.

(** X3. [as_dict] fails in exactly two cases, both with an
    [AttributeError]: when the entry has no track row (the key is NULL or
    dangling), on the first attribute read, [title]; and, with a track,
    when [time_added] is NULL, on [ctime].  In every other case it
    returns a record; a missing user never makes it fail. *)
Theorem as_dict_failure (db : DB) (self : PlayQueueEntry.t) :
  (track_of db self = None →
     as_dict ctime db self = Raise (AttributeError "title")) ∧
  (is_Some (track_of db self) → PlayQueueEntry.time_added self = None →
     as_dict ctime db self = Raise (AttributeError "ctime")) ∧
  ((∃ d, as_dict ctime db self = Ok d) ↔
     is_Some (track_of db self) ∧ is_Some (PlayQueueEntry.time_added self)).
Proof.
  split; [|split].
  - intros Htr. unfold as_dict. by rewrite Htr.
  - intros [tr Htr] Ht. unfold as_dict. by rewrite Htr, Ht.
  - split.
    + intros [d (tr & t & Htr & Ht & _)%as_dict_Ok_inv]. by rewrite Htr, Ht.
    + intros [Htr Ht]. by apply as_dict_returns.
Qed.

(** X4. In the record [as_dict] returns, the six track fields hold the
    attributes of the entry's track, the four entry fields and [user_id]
    hold the entry's own columns (NULL as [None]), and [time_added] holds
    the [ctime] text of the enqueue time: no assignment overwrites
    another. *)
Theorem as_dict_contents (db : DB) (self : PlayQueueEntry.t) (d : gmap string value) :
  as_dict ctime db self = Ok d →
  ∃ tr t,
    track_of db self = Some tr ∧ PlayQueueEntry.time_added self = Some t ∧
    d !! "title" = Some (of_str (Track.title tr)) ∧
    d !! "artist" = Some (of_str (Track.artist tr)) ∧
    d !! "album" = Some (of_str (Track.album tr)) ∧
    d !! "spotify_url" = Some (of_str (Track.spotify_url tr)) ∧
    d !! "date" = Some (of_str (Track.date tr)) ∧
    d !! "length" = Some (of_int (Track.length tr)) ∧
    d !! "id" = Some (of_int (PlayQueueEntry.id self)) ∧
    d !! "mpd_id" = Some (of_int (PlayQueueEntry.mpd_id self)) ∧
    d !! "playback_priority" = Some (of_int (PlayQueueEntry.playback_priority self)) ∧
    d !! "user_priority" = Some (of_int (PlayQueueEntry.user_priority self)) ∧
    d !! "time_added" = Some (VStr (ctime t)) ∧
    d !! "user_id" = Some (of_int (PlayQueueEntry.user_id self)).
Proof.
  intros (tr & t & Htr & Ht & ->)%as_dict_Ok_inv.
  exists tr, t. split; [done|]. split; [done|].
  unfold as_dict_value.
  repeat split; repeat (rewrite lookup_insert_ne by done); apply lookup_insert_eq.
Qed.

(** X5. An entry enqueued for a track that is in the catalogue can be
    projected at once: [as_dict] on the new row returns a record that shows
    the track's title, the Mopidy id and user id given, the [ctime] text of
    the enqueue time, and the priorities one above the largest ones of the
    queue as it was. *)
Theorem enqueue_then_as_dict (db : DB) (track_id user_id mpd_id : option Z)
        (now : datetime) (tr : Track.t) :
  get Track.id (track db) track_id = Some tr →
  ∃ e d,
    play_queue_entry (enqueue db track_id user_id mpd_id now) = play_queue_entry db ++ [e] ∧
    as_dict ctime (enqueue db track_id user_id mpd_id now) e = Ok d ∧
    d !! "title" = Some (of_str (Track.title tr)) ∧
    d !! "mpd_id" = Some (of_int mpd_id) ∧
    d !! "user_id" = Some (of_int user_id) ∧
    d !! "time_added" = Some (VStr (ctime now)) ∧
    d !! "user_priority" =
      Some (VInt (max_or_zero PlayQueueEntry.user_priority (play_queue_entry db) + 1)) ∧
    d !! "playback_priority" =
      Some (VInt (max_or_zero PlayQueueEntry.playback_priority (play_queue_entry db) + 1)).
Proof.
  intros Htr.
  set (e := new_entry db track_id user_id mpd_id now).
  assert (track_of (enqueue db track_id user_id mpd_id now) e = Some tr) as Htr' by done.
  destruct (as_dict_returns ctime (enqueue db track_id user_id mpd_id now) e)
    as [d Hd]; [by eexists | by eexists |].
  exists e, d. split; [done|]. split; [done|].
  destruct (as_dict_contents _ _ _ Hd)
    as (tr' & t & Htr'' & Ht & Htitle & _ & _ & _ & _ & _ & _ & Hmpd & Hp & Hu & Htime & Huid).
  rewrite Htr' in Htr''. injection Htr'' as <-. injection Ht as <-.
  rewrite Htitle, Hmpd, Huid, Htime, Hu, Hp. simpl.
  by rewrite default_user_priority_max, default_playback_priority_max.
Qed.
End as_dict_more.

Lemma as_dict_failure_witness :
  as_dict sample_ctime sample_db sample_trackless_entry = Raise (AttributeError "title") ∧
  as_dict sample_ctime sample_db sample_timeless_entry = Raise (AttributeError "ctime").
Proof.
  destruct (as_dict_failure sample_ctime sample_db sample_trackless_entry) as (Hno & _ & _).
  destruct (as_dict_failure sample_ctime sample_db sample_timeless_entry) as (_ & Htime & _).
  split; [apply Hno; reflexivity | apply Htime; [by eexists | reflexivity]].
Defined.

Lemma as_dict_contents_witness :
  ∃ d, as_dict sample_ctime sample_db sample_blank_entry = Ok d ∧
       d !! "title" = Some (VStr "Blue in Green") ∧ d !! "user_id" = Some (VInt 2).
Proof.
  destruct (as_dict_returns sample_ctime sample_db sample_blank_entry)
    as [d Hd]; [by eexists | by eexists |].
  exists d. split; [exact Hd|].
  destruct (as_dict_contents sample_ctime sample_db sample_blank_entry d Hd)
    as (tr & t & Htr & _ & Htitle & _ & _ & _ & _ & _ & _ & _ & _ & _ & _ & Huid).
  injection Htr as <-. split; [exact Htitle | exact Huid].
Defined.

Lemma enqueue_then_as_dict_witness :
  ∃ e d, play_queue_entry (enqueue sample_db (Some 7) None (Some 40) sample_now) = [e] ∧
         as_dict sample_ctime (enqueue sample_db (Some 7) None (Some 40) sample_now) e = Ok d ∧
         d !! "playback_priority" = Some (VInt 1).
Proof.
  destruct (enqueue_then_as_dict sample_ctime sample_db (Some 7) None (Some 40) sample_now
              sample_track eq_refl)
    as (e & d & Hq & Hd & _ & _ & _ & _ & _ & Hp).
  exists e, d. split; [exact Hq|]. split; [exact Hd | exact Hp].
Defined.

(** ** [__repr__] *)

Lemma get_Some {A : Type} (pkey : A → option Z) (rows : list A) (i : option Z) (r : A) :
  get pkey rows i = Some r → pkey r = i ∧ is_Some i.
Proof.
  destruct i as [i|]; [|done]. simpl.
  intros [_ Hr]%find_some. apply bool_decide_eq_true in Hr. split; [done | by eexists].
Qed.

(** X6. [User.__repr__] needs the user's id: it raises [TypeError] exactly
    when the id is [None] and returns a string otherwise.  A user fresh
    from [User.__init__] has no id yet, so its [repr] raises. *)
Theorem User_repr_needs_id (repr : value → string) (format_d : Z → string) :
  (∀ u, User.__repr__ repr format_d u = Raise TypeError ↔ User.id u = None) ∧
  (∀ u, (∃ s, User.__repr__ repr format_d u = Ok s) ↔ is_Some (User.id u)) ∧
  (∀ generate_password_hash salt name username password u,
      User.__init__ generate_password_hash salt name username password = Ok u →
      User.__repr__ repr format_d u = Raise TypeError).
Proof.
  split; [|split].
  - intros u. unfold User.__repr__. by destruct (User.id u).
  - intros u. unfold User.__repr__. destruct (User.id u); split.
    + by eexists.
    + by eexists.
    + by intros [s ?].
    + by intros [? ?].
  - intros gph salt name username password u. unfold User.__init__.
    destruct (gph salt password); [|done]. by intros [= <-].
Qed.

Lemma User_repr_needs_id_witness :
  ∃ u, User.__init__ sample_hash "x7Qa" (Some "Alice") (Some "alice") (Some "secret") = Ok u ∧
       User.__repr__ sample_repr sample_format_d u = Raise TypeError.
Proof.
  eexists. split; [reflexivity|].
  exact (proj2 (proj2 (User_repr_needs_id sample_repr sample_format_d))
           sample_hash "x7Qa" (Some "Alice") (Some "alice") (Some "secret") _ eq_refl).
Defined.

Lemma repr_user_loaded (repr : value → string) (format_d : Z → string)
      (rows : list User.t) (i : option Z) :
  ∃ s, repr_user repr format_d (get User.id rows i) = Ok s.
Proof.
  destruct (get User.id rows i) as [u|] eqn:Hu; [|by eexists].
  apply get_Some in Hu as [Hid [j ->]]. simpl. unfold User.__repr__. rewrite Hid.
  by eexists.
Qed.

(** X7. [__repr__] of a queue entry and of a history entry never raises,
    whatever the database and the entry: the track and the user they show
    are loaded by primary key, so the user, when there is one, has the id
    that [User.__repr__] needs; a missing track or user shows as [None]. *)
Theorem entry_repr_returns (repr : value → string) (format_d : Z → string) (db : DB) :
  (∀ self, ∃ s, PlayQueueEntry__repr__ repr format_d db self = Ok s) ∧
  (∀ self, ∃ s, PlayHistoryEntry__repr__ repr format_d db self = Ok s) ∧
  (∀ self, user_of db self = None →
           repr_user repr format_d (user_of db self) = Ok (repr VNone)) ∧
  (∀ self, track_of db self = None →
           repr_track repr (track_of db self) = repr VNone).
Proof.
  split; [|split; [|split]].
  - intros self. unfold PlayQueueEntry__repr__, user_of.
    destruct (repr_user_loaded repr format_d (user db) (PlayQueueEntry.user_id self))
      as [s ->].
    by eexists.
  - intros self. unfold PlayHistoryEntry__repr__, played_by.
    destruct (repr_user_loaded repr format_d (user db) (PlayHistoryEntry.user_id self))
      as [s ->].
    by eexists.
  - by intros self ->.
  - by intros self ->.
Qed.

Lemma entry_repr_returns_witness :
  user_of sample_db sample_trackless_entry =
    Some (User.mk (Some 1) (Some "Alice") (Some "alice") (Some "sha1$x$0") (Some 0)) ∧
  track_of sample_db sample_trackless_entry = None ∧
  ∃ s, PlayQueueEntry__repr__ sample_repr sample_format_d sample_db
         sample_trackless_entry = Ok s.
Proof.
  split; [reflexivity|]. split; [reflexivity|].
  exact (proj1 (entry_repr_returns sample_repr sample_format_d sample_db)
           sample_trackless_entry).
Defined.

(** ** The configuration form *)

Section forms.
Variable blank : string → bool.
Variable int : string → option Z.

Lemma port_field_spec (lbl : string) (valuelist : list string) :
  wtforms.validate_field blank int
    (wtforms.Field lbl wtforms.IntegerField
       [wtforms.Required; wtforms.NumberRange (Some 0) (Some 65535)]) valuelist = true ↔
  accepted_port int valuelist.
Proof.
  unfold wtforms.validate_field, wtforms.field_errors, accepted_port. simpl.
  destruct valuelist as [|v rest]; simpl.
  { split; [done|]. by intros (? & ? & ? & ? & _). }
  destruct (int v) as [n|] eqn:Hn; simpl.
  - destruct (Z.eqb_spec n 0) as [->|Hn0]; simpl.
    + split; [done|]. intros (? & ? & m & [= <- <-] & Hm & ?).
      rewrite Hn in Hm. injection Hm as <-. lia.
    + destruct (Z.ltb_spec n 0), (Z.ltb_spec 65535 n); simpl; split; try done;
        try (intros (? & ? & m & [= <- <-] & Hm & ?);
             rewrite Hn in Hm; injection Hm as <-; lia).
      intros _. exists v, rest, n. repeat split; try done; lia.
  - split; [done|]. intros (? & ? & m & [= <- <-] & Hm & ?). congruence.
Qed.

Lemma host_field_spec (lbl : string) (valuelist : list string) :
  wtforms.validate_field blank int
    (wtforms.Field lbl wtforms.TextField [wtforms.Required]) valuelist = true ↔
  accepted_host blank valuelist.
Proof.
  unfold wtforms.validate_field, wtforms.field_errors, accepted_host. simpl.
  destruct valuelist as [|v rest]; simpl.
  { split; [done|]. by intros (? & ? & ? & _). }
  destruct (String.eqb_spec v "") as [->|Hv]; simpl.
  { split; [done|]. by intros (? & ? & [= <- <-] & ? & _). }
  destruct (blank v) eqn:Hb; simpl.
  - split; [done|]. intros (? & ? & [= <- <-] & _ & Hb'). congruence.
  - split; [|done]. intros _. by exists v, rest.
Qed.

Lemma server_field_spec (lbl : string) (valuelist : list string) :
  blank "tornado" = false → blank "builtin" = false →
  wtforms.validate_field blank int
    (wtforms.Field lbl
       (wtforms.SelectField [("tornado", "Tornado"); ("builtin", "Builtin Debugging Server")])
       [wtforms.Required]) valuelist = true ↔
  accepted_server valuelist.
Proof.
  intros Htornado Hbuiltin.
  unfold wtforms.validate_field, wtforms.field_errors, accepted_server.
  destruct valuelist as [|v rest].
  { split; [|by intros (? & ? & ? & _)].
    cbn [wtforms.process wtforms.class wtforms.validators wtforms.pre_validate
         wtforms.process_errors wtforms.field_data existsb fst app
         wtforms.run_validators wtforms.run_validator wtforms.falsy wtforms.blank_data].
    cbn [String.eqb Ascii.eqb Bool.eqb orb andb]. by destruct (blank "None"). }
  destruct (String.eqb_spec v "tornado") as [->|Ht].
  { split; [intros _; exists "tornado", rest; auto|]. intros _.
    cbn [wtforms.process wtforms.class wtforms.validators wtforms.pre_validate
         wtforms.process_errors wtforms.field_data existsb fst app
         wtforms.run_validators wtforms.run_validator wtforms.falsy wtforms.blank_data].
    rewrite Htornado. reflexivity. }
  destruct (String.eqb_spec v "builtin") as [->|Hb].
  { split; [intros _; exists "builtin", rest; auto|]. intros _.
    cbn [wtforms.process wtforms.class wtforms.validators wtforms.pre_validate
         wtforms.process_errors wtforms.field_data existsb fst app
         wtforms.run_validators wtforms.run_validator wtforms.falsy wtforms.blank_data].
    rewrite Hbuiltin. reflexivity. }
  split.
  - cbn [wtforms.process wtforms.class wtforms.validators wtforms.pre_validate
         wtforms.process_errors wtforms.field_data existsb fst app
         wtforms.run_validators wtforms.run_validator wtforms.falsy wtforms.blank_data].
    rewrite (proj2 (String.eqb_neq _ _) Ht), (proj2 (String.eqb_neq _ _) Hb).
    cbn [orb]. by destruct (_ || _).
  - intros (? & ? & [= <- <-] & [?|?]); congruence.
Qed.

Lemma optional_field_spec (lbl : string) (valuelist : list string) :
  wtforms.validate_field blank int
    (wtforms.Field lbl wtforms.TextField [wtforms.Optional]) valuelist = true.
Proof.
  unfold wtforms.validate_field, wtforms.field_errors. simpl.
  destruct valuelist as [|v rest]; simpl; [done|]. by destruct (blank v).
Qed.

(** X8. Each of the two port fields accepts its input exactly when the
    first value submitted parses as an integer from 1 to 65535.  Port 0 is
    rejected although [NumberRange] allows it from 0: [Required] comes
    first and takes 0 for missing data. *)
Theorem port_fields_accept (valuelist : list string) :
  (∃ f, form_field ConfigurationForm "mpd_server_port" = Some f ∧
        (wtforms.validate_field blank int f valuelist = true ↔
           accepted_port int valuelist) ∧
        (∀ v rest, valuelist = v :: rest → int v = Some 0 →
                   wtforms.field_errors blank int f valuelist = [wtforms.FieldRequired])) ∧
  (∃ f, form_field ConfigurationForm "server_port" = Some f ∧
        (wtforms.validate_field blank int f valuelist = true ↔
           accepted_port int valuelist) ∧
        (∀ v rest, valuelist = v :: rest → int v = Some 0 →
                   wtforms.field_errors blank int f valuelist = [wtforms.FieldRequired])).
Proof.
  split; eexists; (split; [reflexivity|]); (split; [apply port_field_spec|]);
    intros v rest -> Hv; unfold wtforms.field_errors; simpl; by rewrite Hv.
Qed.

(** X9. Whatever whitespace the string type of the submitted values
    strips, as long as the two server names are not blank under it: the
    form is valid exactly when both host names have a first value that is
    neither empty nor blank, both ports are integers from 1 to 65535, and
    the server is ["tornado"] or ["builtin"].  The two Last.fm fields are
    optional: whatever is submitted for them, or nothing, never makes the
    form invalid. *)
Theorem ConfigurationForm_valid (formdata : string → list string) :
  blank "tornado" = false → blank "builtin" = false →
  (wtforms.validate blank int ConfigurationForm formdata = true ↔
     accepted_host blank (formdata "mpd_server_hostname") ∧
     accepted_port int (formdata "mpd_server_port") ∧
     accepted_host blank (formdata "server_host") ∧
     accepted_port int (formdata "server_port") ∧
     accepted_server (formdata "server")).
Proof.
  intros Htornado Hbuiltin.
  unfold wtforms.validate, ConfigurationForm.
  cbn [forallb fst snd]. rewrite !andb_true_iff.
  rewrite !host_field_spec, !port_field_spec, !optional_field_spec.
  rewrite (server_field_spec _ _ Htornado Hbuiltin).
  tauto.
Qed.
End forms.

Lemma port_fields_accept_witness :
  ∃ f, form_field ConfigurationForm "mpd_server_port" = Some f ∧
       wtforms.validate_field sample_blank sample_int f ["6600"] = true ∧
       wtforms.validate_field sample_blank sample_int f ["0"] = false ∧
       wtforms.validate_field sample_blank sample_int f ["70000"] = false.
Proof.
  destruct (proj1 (port_fields_accept sample_blank sample_int ["6600"]))
    as (f & Hf & Hok & _).
  exists f. split; [exact Hf|]. split.
  - apply Hok. exists "6600", [], 6600. repeat split; try reflexivity; lia.
  - injection Hf as <-. split; reflexivity.
Defined.

Lemma ConfigurationForm_valid_witness :
  sample_blank "tornado" = false ∧ sample_blank "builtin" = false ∧
  wtforms.validate sample_blank sample_int ConfigurationForm sample_formdata = true.
Proof.
  split; [reflexivity|]. split; [reflexivity|].
  apply (ConfigurationForm_valid sample_blank sample_int sample_formdata eq_refl eq_refl).
  repeat split.
  - exists "localhost", []. split; [reflexivity|]. split; [discriminate | reflexivity].
  - exists "6600", [], 6600. repeat split; try reflexivity; lia.
  - exists "0.0.0.0", []. split; [reflexivity|]. split; [discriminate | reflexivity].
  - exists "6600", [], 6600. repeat split; try reflexivity; lia.
  - exists "tornado", []. split; [reflexivity | by left].
Defined.

(** ** Dangling users, and looking an entry up *)

(** X10. An entry whose [user_id] points at no user row is projected
    under the fallback names, and still shows the dangling id in
    [user_id]: the record names nobody but is not anonymous. *)
Theorem as_dict_dangling_user (ctime : datetime → string) (db : DB)
        (self : PlayQueueEntry.t) (i : Z) (d : gmap string value) :
  PlayQueueEntry.user_id self = Some i →
  get User.id (user db) (Some i) = None →
  as_dict ctime db self = Ok d →
  d !! "user" = Some (VStr "Anonymous") ∧
  d !! "username" = Some (VStr "anonymous") ∧
  d !! "user_id" = Some (VInt i).
Proof.
  intros Hi Hnone Hd.
  assert (user_of db self = None) as Hu by (unfold user_of; by rewrite Hi).
  destruct (as_dict_contents ctime db self d Hd)
    as (_ & _ & _ & _ & _ & _ & _ & _ & _ & _ & _ & _ & _ & _ & _ & Huid).
  apply as_dict_Ok_inv in Hd as (tr & t & _ & _ & ->).
  rewrite as_dict_value_user, as_dict_value_username, Hu.
  rewrite Huid, Hi. done.
Qed.

Lemma as_dict_dangling_user_witness :
  ∃ d, as_dict sample_ctime sample_db sample_orphan_entry = Ok d ∧
       d !! "user" = Some (VStr "Anonymous") ∧ d !! "user_id" = Some (VInt 99).
Proof.
  destruct (as_dict_returns sample_ctime sample_db sample_orphan_entry)
    as [d Hd]; [by eexists | by eexists |].
  exists d. split; [exact Hd|].
  destruct (as_dict_dangling_user sample_ctime sample_db sample_orphan_entry 99 d
              eq_refl eq_refl Hd) as (Hu & _ & Hi).
  split; [exact Hu | exact Hi].
Defined.

Lemma find_snoc {A : Type} (p : A → bool) (l : list A) (x : A) :
  List.find p (l ++ [x]) =
    match List.find p l with
    | Some y => Some y
    | None => if p x then Some x else None
    end.
Proof.
  induction l as [|y l IH]; simpl; [done|]. by destruct (p y).
Qed.

Lemma next_id_fresh {A : Type} (pkey : A → option Z) (rows : list A) (r : A) :
  r ∈ rows → pkey r ≠ Some (next_id pkey rows).
Proof.
  intros Hin Hr. unfold next_id in Hr.
  destruct (sql_max_ge pkey rows r _ Hin Hr) as (m & Hm & Hle).
  rewrite Hm in Hle. lia.
Qed.

(** X11. The key given to a new queue entry is carried by no row already
    in the table, so looking the entry up by its key right after the
    enqueue returns that entry, and every other lookup returns what it
    returned before. *)
Theorem enqueue_then_get (db : DB) (track_id user_id mpd_id : option Z) (now : datetime) :
  ∃ e,
    play_queue_entry (enqueue db track_id user_id mpd_id now) = play_queue_entry db ++ [e] ∧
    (∀ r, r ∈ play_queue_entry db → PlayQueueEntry.id r ≠ PlayQueueEntry.id e) ∧
    get PlayQueueEntry.id (play_queue_entry (enqueue db track_id user_id mpd_id now))
        (PlayQueueEntry.id e) = Some e ∧
    (∀ i, i ≠ PlayQueueEntry.id e →
       get PlayQueueEntry.id (play_queue_entry (enqueue db track_id user_id mpd_id now)) i =
       get PlayQueueEntry.id (play_queue_entry db) i).
Proof.
  exists (new_entry db track_id user_id mpd_id now).
  split; [done|].
  assert (∀ r, r ∈ play_queue_entry db →
               PlayQueueEntry.id r ≠
               PlayQueueEntry.id (new_entry db track_id user_id mpd_id now)) as Hfresh
    by (intros r Hr; by apply next_id_fresh).
  split; [done|]. split.
  - cbn [enqueue set_play_queue_entry play_queue_entry new_entry PlayQueueEntry.id get].
    rewrite find_snoc.
    destruct (List.find _ (play_queue_entry db)) as [r|] eqn:Hfind.
    + apply find_some in Hfind as [Hin Hr%bool_decide_eq_true].
      apply list_elem_of_In in Hin. by destruct (Hfresh r Hin).
    + cbn [PlayQueueEntry.id]. by rewrite bool_decide_eq_true_2.
  - intros [i|] Hi; [|done].
    cbn [enqueue set_play_queue_entry play_queue_entry get].
    rewrite find_snoc. destruct (List.find _ (play_queue_entry db)); [done|].
    rewrite bool_decide_eq_false_2; [done|]. by intros Heq; apply Hi.
Qed.

Lemma enqueue_then_get_witness :
  ∃ e, get PlayQueueEntry.id
           (play_queue_entry (enqueue sample_vote_db (Some 7) None None sample_now))
           (Some 3) = Some e ∧
       PlayQueueEntry.playback_priority e = Some 3.
Proof.
  destruct (enqueue_then_get sample_vote_db (Some 7) None None sample_now)
    as (e & Hq & _ & Hget & _).
  exists e. injection Hq as <-. split; [exact Hget | reflexivity].
Defined.
